(** * Quiz platform backend: submission, scoring and question access

    A shallow embedding of [submitQuiz] (controllers/quizController), of
    the question, topic and quiz models it calls ([getQuestionsForQuiz],
    [getQuestionsByIds], [getTopicBySlug], [createQuizAttempt],
    [saveUserAnswer]) and of the part of the relational store those models
    read and write.

    - JavaScript numbers are IEEE-754 binary64 values: the percentage is a
      [float] and is computed with the kernel's primitive operations, so
      that [0 / 0] is [nan] and every comparison with [nan] is [false].
      Counters and array lengths are [nat], integer columns are [Z].
      [toFixed(2)] and [parseFloat] follow ECMAScript on the exact value of
      the double.
    - The store is a record of tables (lists of rows); a query is a pure
      function of the store, an insert returns the new store and the row.
      [gen_random_uuid()] draws from a supply kept in the store, and
      [ORDER BY RANDOM()] sorts by numbers that are an argument of the
      query. Timestamp columns are left out: nothing here reads them.
    - A handler is a computation over the store that either ends with an
      HTTP response ([return res.status(...).json(...)]) or goes on.
    - A request body has the types of [QuizSubmission]: identities are
      well-formed UUID texts, [selected_answer] and the times are integers
      that fit their columns, and the authenticated user exists. Under
      these the inserts of [submitQuiz] succeed, so its [catch] branch
      (500) has no counterpart here; the one statement the store refuses
      in this model is a negative [LIMIT].
    - Around the submission: [startQuiz], which catches that refusal; the
      middleware [authenticate] and [optionalAuth] with [verifyToken],
      where [jwt.verify] is an argument; the route [POST /submit]; the
      validators of utils/auth, on strings as UTF-16 code units and
      patterns matched by their derivatives; and [getQuestionById]. *)

From Stdlib Require Import ZArith List Floats Lia.
From stdpp Require Import base option list gmap strings pretty.

Local Open Scope Z_scope.

(** ** JavaScript numbers *)

Module JsNumber.

(** A counter or an array length read as a number. Exact below [2^53],
    which an array length (below [2^32]) always is. *)
Definition of_nat (n : nat) : float :=
  PrimFloat.of_uint63 (Uint63.of_Z (Z.of_nat n)).

(** [value || 0] on an optional integer field of a JSON body: [undefined]
    and [0] are falsy. *)
Definition or_zero (v : option Z) : Z := default 0 v.

(** The magnitude [m * 2^e] times 100, rounded to an integer: the integer
    [n] for which [n / 100 - m * 2^e] is closest to zero, the larger one
    when there are two (Number.prototype.toFixed, step "let n be"). *)
Definition hundredths (m : positive) (e : Z) : Z :=
  if 0 <=? e then 100 * Z.pos m * 2 ^ e
  else (200 * Z.pos m + 2 ^ (- e)) / 2 ^ (1 - e).

(** What [x.toFixed(2)] writes: [ToString(x)] when [x] is not finite or
    is at least [1e21] in magnitude, else a sign and the digits of [n]
    with a point before the last two. *)
Inductive fixed : Type :=
  | FixedToString (x : float)
  | FixedDigits (neg : bool) (n : Z).

Definition toFixed2 (x : float) : fixed :=
  if PrimFloat.ltb (PrimFloat.abs x) 1e21%float then
    FixedDigits (PrimFloat.ltb x 0%float)
      match Prim2SF (PrimFloat.abs x) with
      | S754_finite _ m e => hundredths m e
      | _ => 0
      end
  else FixedToString x.

(** The double nearest to [n / d] (ties to even), for [0 < n] and
    [0 < d]: what reading a decimal literal gives. *)
Definition nearest_double (n d : Z) : float :=
  let l := Z.log2 n - Z.log2 d - 53 in
  let scaled e := if 0 <=? e then (n, d * 2 ^ e) else (n * 2 ^ (- e), d) in
  let e := if (let '(a, b) := scaled l in a <? 2 ^ 53 * b) then l else l + 1 in
  let '(a, b) := scaled e in
  let q := a / b in
  let r := a mod b in
  let m := if 2 * r <? b then q
           else if b <? 2 * r then q + 1
           else if Z.even q then q else q + 1 in
  Z.ldexp (PrimFloat.of_uint63 (Uint63.of_Z m)) e.

(** [parseFloat] on a string that [toFixed] wrote. *)
Definition parseFloat (s : fixed) : float :=
  match s with
  | FixedToString x => x
  | FixedDigits neg n =>
      let v := if n =? 0 then 0%float else nearest_double n 100 in
      if neg then PrimFloat.opp v else v
  end.

(** [x >= y] on numbers. *)
Definition geb (x y : float) : bool := PrimFloat.leb y x.

End JsNumber.

(** ** Data model (types) *)

(** Identities are UUID texts. *)
Abbreviation uuid := string (only parsing).

Module Topic.
Record t := mk {
  id : uuid;
  name : string;
  slug : string;
  description : string;
  icon : string;
  difficulty : string;
  is_active : bool;
  (** [question_count?]: absent in a table row, set by the topic queries. *)
  question_count : option nat;
}.
End Topic.

Module Question.
Record t := mk {
  id : uuid;
  topic_id : uuid;
  question : string;
  options : list string;
  correct_answer : Z;
  difficulty : string;
  explanation : string;
}.
End Question.

Module QuizAttempt.
Record t := mk {
  id : uuid;
  user_id : uuid;
  topic_id : uuid;
  score : nat;
  total_questions : nat;
  (** The number bound to the insert; the column keeps two decimals. *)
  percentage : float;
  time_taken : Z;
}.
End QuizAttempt.

Module UserAnswer.
Record t := mk {
  id : uuid;
  attempt_id : uuid;
  question_id : uuid;
  selected_answer : Z;
  is_correct : bool;
  time_taken : Z;
}.
End UserAnswer.

(** One element of [QuizSubmission.answers]. *)
Module Answer.
Record t := mk {
  question_id : uuid;
  selected_answer : Z;
  time_taken : option Z;
}.
End Answer.

(** One element of [QuizResult.answers] ([detailedAnswers]). *)
Module Detail.
Record t := mk {
  question_id : uuid;
  question : string;
  options : list string;
  selected_answer : Z;
  correct_answer : Z;
  is_correct : bool;
  explanation : string;
  difficulty : string;
  time_taken : Z;
}.
End Detail.

Module TopicAnalysis.
Record t := mk {
  topic : string;
  correct : nat;
  total : nat;
  percentage : float;
}.
End TopicAnalysis.

Module QuizResult.
Record t := mk {
  attempt_id : uuid;
  score : nat;
  total_questions : nat;
  percentage : float;
  grade : string;
  feedback : string;
  time_taken : Z;
  answers : list Detail.t;
  topic_analysis : TopicAnalysis.t;
}.
End QuizResult.

(** ** The store (config/database) *)

Record Store := mkStore {
  topics : list Topic.t;
  questions : list Question.t;
  quiz_attempts : list QuizAttempt.t;
  user_answers : list UserAnswer.t;
  (** How many identities [gen_random_uuid()] has handed out. *)
  uuid_supply : nat;
}.

(** The text of the [n]-th generated identity. *)
Definition uuid_text (n : nat) : uuid := pretty n.

(** A column value of a result row, and the object the driver builds for
    a row: one property per selected column, in the order selected. *)
Inductive value : Type :=
  | VString (s : string)
  | VNumber (z : Z)
  | VArray (l : list string).

Abbreviation row := (list (string * value)) (only parsing).

Definition question_columns (q : Question.t) : row :=
  [ ("id", VString (Question.id q));
    ("topic_id", VString (Question.topic_id q));
    ("question", VString (Question.question q));
    ("options", VArray (Question.options q));
    ("correct_answer", VNumber (Question.correct_answer q));
    ("difficulty", VString (Question.difficulty q));
    ("explanation", VString (Question.explanation q)) ].

Fixpoint column (c : string) (r : row) : option value :=
  match r with
  | [] => None
  | (k, v) :: r' => if decide (k = c) then Some v else column c r'
  end.

(** [SELECT c1, ..., cn]. *)
Definition select (cols : list string) (r : row) : row :=
  omap (fun c => pair c <$> column c r) cols.

(** [ORDER BY RANDOM()]: the i-th row is keyed with the i-th number drawn
    ([rand], zero when the draws run out) and the rows are sorted by key. *)
Fixpoint insert_by_key {A} (x : N * A) (l : list (N * A)) : list (N * A) :=
  match l with
  | [] => [x]
  | y :: l' => if (x.1 <=? y.1)%N then x :: l else y :: insert_by_key x l'
  end.

Definition order_by_random {A} (rand : list N) (rows : list A) : list A :=
  (foldr insert_by_key [] (imap (fun i r => (default 0%N (rand !! i), r)) rows)).*2.

(** A statement the store refuses. *)
Inductive db_error : Type :=
  | LimitMustNotBeNegative.

(** [LIMIT n]. *)
Definition limit_rows {A} (n : Z) (rows : list A) : db_error + list A :=
  if n <? 0 then inl LimitMustNotBeNegative else inr (take (Z.to_nat n) rows).

(** ** models/questionModel *)

(** Truthiness of an optional string argument ([if (difficulty)]). *)
Definition truthy (s : option string) : option string :=
  match s with
  | Some "" => None
  | _ => s
  end.

Definition getQuestionsForQuiz (db : Store) (rand : list N)
    (topicId : uuid) (limit : option Z) (difficulty : option string)
    : db_error + list row :=
  let limit := default 10 limit in
  let matching :=
    match truthy difficulty with
    | Some d =>
        filter (fun q => Question.topic_id q = topicId ∧ Question.difficulty q = d)
          (questions db)
    | None => filter (fun q => Question.topic_id q = topicId) (questions db)
    end in
  limit_rows limit
    (order_by_random rand
       (select ["id"; "question"; "options"; "difficulty"] ∘ question_columns <$> matching)).

(** [SELECT * FROM questions WHERE id = ANY($1)]. *)
Definition getQuestionsByIds (db : Store) (ids : list uuid) : list Question.t :=
  filter (fun q => Question.id q ∈ ids) (questions db).

(** ** models/topicModel *)

Definition getTopicBySlug (db : Store) (slug : string) : option Topic.t :=
  head
    ((fun t =>
        Topic.mk (Topic.id t) (Topic.name t) (Topic.slug t) (Topic.description t)
          (Topic.icon t) (Topic.difficulty t) (Topic.is_active t)
          (Some (length (filter (fun q => Question.topic_id q = Topic.id t) (questions db)))))
     <$> filter (fun t => Topic.slug t = slug ∧ Topic.is_active t = true) (topics db)).

(** ** models/quizModel *)

Definition createQuizAttempt (userId topicId : uuid) (score totalQuestions : nat)
    (percentage : float) (timeTaken : Z) (db : Store) : QuizAttempt.t * Store :=
  let r := QuizAttempt.mk (uuid_text (uuid_supply db)) userId topicId
             score totalQuestions percentage timeTaken in
  (r, mkStore (topics db) (questions db) (quiz_attempts db ++ [r])
        (user_answers db) (S (uuid_supply db))).

Definition saveUserAnswer (attemptId questionId : uuid) (selectedAnswer : Z)
    (isCorrect : bool) (timeTaken : Z) (db : Store) : UserAnswer.t * Store :=
  let r := UserAnswer.mk (uuid_text (uuid_supply db)) attemptId questionId
             selectedAnswer isCorrect timeTaken in
  (r, mkStore (topics db) (questions db) (quiz_attempts db)
        (user_answers db ++ [r]) (S (uuid_supply db))).

(** ** controllers/quizController *)

Record JWTPayload := mkJWTPayload {
  userId : uuid;
  email : string;
  username : string;
}.

(** The body of [POST /quiz/submit] as the handler reads it. [answers] is
    [None] for anything that fails [!answers || !Array.isArray(answers)]. *)
Record QuizSubmission := mkQuizSubmission {
  topic_slug : option string;
  answers : option (list Answer.t);
  total_time : option Z;
}.

Record AuthRequest := mkAuthRequest {
  user : option JWTPayload;
  body : QuizSubmission;
}.

(** What [res.status(code).json(...)] sends. *)
Inductive payload : Type :=
  | Failure (message : string)
  | Submitted (message : string) (result : QuizResult.t).

Record Response := mkResponse {
  status : Z;
  json : payload;
}.

(** A handler runs against the store and either has sent its response
    ([return res.status(...)...]) or goes on with a value. *)
Definition Handler (A : Type) : Type := Store → (Response + A) * Store.

#[global] Instance handler_ret : MRet Handler :=
  fun A a db => (inr a, db).

#[global] Instance handler_bind : MBind Handler :=
  fun A B f m db =>
    match m db with
    | (inl r, db') => (inl r, db')
    | (inr a, db') => f a db'
    end.

Definition respond {A} (code : Z) (p : payload) : Handler A :=
  fun db => (inl (mkResponse code p), db).

(** [await] on a query that only reads. *)
Definition query {A} (q : Store → A) : Handler A :=
  fun db => (inr (q db), db).

(** [await] on an insert. *)
Definition execute {A} (q : Store → A * Store) : Handler A :=
  fun db => let '(a, db') := q db in (inr a, db').

Definition handle (h : Handler Response) (db : Store) : Response * Store :=
  match h db with
  | (inl r, db') => (r, db')
  | (inr r, db') => (r, db')
  end.

(** The lookup [new Map(questions.map((q) => [q.id, q]))]: a later entry
    with the same key replaces an earlier one. *)
Definition question_map (qs : list Question.t) : gmap string Question.t :=
  foldl (fun m q => <[Question.id q := q]> m) ∅ qs.

(** One turn of [for (const answer of answers)], on the pair
    [(correctCount, detailedAnswers)]. *)
Definition score_step (questionMap : gmap string Question.t)
    (acc : nat * list Detail.t) (answer : Answer.t) : nat * list Detail.t :=
  match questionMap !! Answer.question_id answer with
  | None => acc
  | Some question =>
      let isCorrect :=
        bool_decide (Answer.selected_answer answer = Question.correct_answer question) in
      ((if isCorrect then S acc.1 else acc.1),
       acc.2 ++ [Detail.mk (Question.id question) (Question.question question)
                   (Question.options question) (Answer.selected_answer answer)
                   (Question.correct_answer question) isCorrect
                   (Question.explanation question) (Question.difficulty question)
                   (JsNumber.or_zero (Answer.time_taken answer))])
  end.

Definition score_loop (questionMap : gmap string Question.t)
    (answers : list Answer.t) : nat * list Detail.t :=
  foldl (score_step questionMap) (0%nat, []) answers.

Definition percentage_of (correctCount totalQuestions : nat) : float :=
  (JsNumber.of_nat correctCount / JsNumber.of_nat totalQuestions * 100)%float.

(** [grade] and [feedback] after the chain of comparisons. *)
Definition grade_of (percentage : float) : string * string :=
  if JsNumber.geb percentage 90 then ("A+", "ðŸŒŸ Outstanding! You're in the top tier! Keep up the excellent work!")
  else if JsNumber.geb percentage 80 then ("A", "ðŸŽ‰ Excellent work! You have a strong grasp of this topic!")
  else if JsNumber.geb percentage 70 then ("B+", "ðŸ’ª Great job! Review the questions you missed to improve further.")
  else if JsNumber.geb percentage 60 then ("B", "ðŸ‘ Good effort! Focus on your weak areas to reach the next level.")
  else if JsNumber.geb percentage 50 then ("C", "ðŸ“š Fair performance. More practice will help solidify your understanding.")
  else if JsNumber.geb percentage 40 then ("D", "ðŸŽ¯ You're getting there! Review the basics and try again.")
  else ("F", "Keep practicing! Focus on understanding the concepts.").

(** [for (const answer of detailedAnswers) await saveUserAnswer(...)]. *)
Fixpoint save_answers (attemptId : uuid) (detailedAnswers : list Detail.t)
    : Handler unit :=
  match detailedAnswers with
  | [] => mret tt
  | answer :: rest =>
      _ ← execute (saveUserAnswer attemptId (Detail.question_id answer)
                     (Detail.selected_answer answer) (Detail.is_correct answer)
                     (Detail.time_taken answer));
      save_answers attemptId rest
  end.

Definition submitQuiz (req : AuthRequest) : Handler Response :=
  u ← match user req with
      | None => respond 401 (Failure "Authentication required")
      | Some u => mret u
      end;
  '(topic_slug, answers) ←
      match truthy (topic_slug (body req)), answers (body req) with
      | Some s, Some a => mret (s, a)
      | _, _ => respond 400 (Failure "Invalid quiz submission data")
      end;
  let total_time := total_time (body req) in
  found ← query (fun db => getTopicBySlug db topic_slug);
  topic ← match found with
          | None => respond 404 (Failure "Topic not found")
          | Some t => mret t
          end;
  let questionIds := Answer.question_id <$> answers in
  questions ← query (fun db => getQuestionsByIds db questionIds);
  let questionMap := question_map questions in
  let '(correctCount, detailedAnswers) := score_loop questionMap answers in
  let totalQuestions := length answers in
  let percentage := percentage_of correctCount totalQuestions in
  let '(grade, feedback) := grade_of percentage in
  attempt ← execute (createQuizAttempt (userId u) (Topic.id topic) correctCount
                       totalQuestions percentage (JsNumber.or_zero total_time));
  _ ← save_answers (QuizAttempt.id attempt) detailedAnswers;
  let topicAnalysis :=
    TopicAnalysis.mk (Topic.name topic) correctCount totalQuestions percentage in
  mret (mkResponse 200
          (Submitted "Quiz submitted successfully"
             (QuizResult.mk (QuizAttempt.id attempt) correctCount totalQuestions
                (JsNumber.parseFloat (JsNumber.toFixed2 percentage))
                grade feedback (JsNumber.or_zero total_time)
                detailedAnswers topicAnalysis))).

(** ** controllers/quizController: startQuiz *)

Module TopicSummary.
Record t := mk {
  id : uuid;
  name : string;
  slug : string;
  description : string;
  icon : string;
}.
End TopicSummary.

(** What [startQuiz] sends: the failure envelope, with [error.message]
    when the handler caught an error, or the quiz. *)
Inductive start_payload : Type :=
  | StartFailure (message : string) (error : option string)
  | Started (topic : TopicSummary.t) (questions : list row)
            (total_questions : nat) (time_per_question : Z).

Record StartResponse := mkStartResponse {
  start_status : Z;
  start_json : start_payload;
}.

(** The message of the error the store raises. *)
Definition error_message (e : db_error) : string :=
  match e with
  | LimitMustNotBeNegative => "LIMIT must not be negative"
  end.

(** [parseInt(req.query.limit as string) || 10], on the value [parseInt]
    gave ([None] when it is not a number): [NaN] and [0] are falsy. *)
Definition limit_or_10 (parsed : option Z) : Z :=
  match parsed with
  | None | Some 0 => 10
  | Some n => n
  end.

(** [GET /quiz/start/:topicSlug]. The handler only reads the store;
    [rand] are the numbers [RANDOM()] draws. An error of the store is
    caught and answered 500. *)
Definition startQuiz (topicSlug : string) (parsed_limit : option Z)
    (rand : list N) (db : Store) : StartResponse :=
  let limit := limit_or_10 parsed_limit in
  match getTopicBySlug db topicSlug with
  | None => mkStartResponse 404 (StartFailure "Topic not found" None)
  | Some topic =>
      match getQuestionsForQuiz db rand (Topic.id topic) (Some limit) None with
      | inl e =>
          mkStartResponse 500 (StartFailure "Failed to start quiz" (Some (error_message e)))
      | inr questions =>
          if decide (length questions = 0%nat) then
            mkStartResponse 404
              (StartFailure "No questions available for this topic" None)
          else
            mkStartResponse 200
              (Started
                 (TopicSummary.mk (Topic.id topic) (Topic.name topic) (Topic.slug topic)
                    (Topic.description topic) (Topic.icon topic))
                 questions (length questions) 30)
      end
  end.

(** ** utils/auth: verifyToken *)

(** What [jwt.verify(token, JWT_SECRET)] does: it returns the payload or
    throws a [TokenExpiredError], another [JsonWebTokenError], or
    something else. *)
Inductive jwt_outcome : Type :=
  | JwtPayload (p : JWTPayload)
  | JwtTokenExpired
  | JwtWebTokenError
  | JwtOtherError.

(** [verifyToken]: [inl] is the message of the error thrown. *)
Definition verifyToken (jwt_verify : string → jwt_outcome) (token : string)
    : string + JWTPayload :=
  match jwt_verify token with
  | JwtPayload p => inr p
  | JwtTokenExpired => inl "Token expired. Please login again."
  | JwtWebTokenError => inl "Invalid token. Please login again."
  | JwtOtherError => inl "Authentication failed."
  end.

(** ** middleware/auth *)

(** [authHeader.startsWith('Bearer ')] and [authHeader.substring(7)]. *)
Definition startsWith_Bearer (authHeader : string) : bool :=
  String.prefix "Bearer " authHeader.

Definition substring_7 (authHeader : string) : string :=
  String.substring 7 (String.length authHeader - 7) authHeader.

(** [error.message || 'Invalid or expired token']. *)
Definition message_or (message fallback : string) : string :=
  match message with
  | "" => fallback
  | _ => message
  end.

(** [authenticate], on [req.headers.authorization]: [inl] is the response
    it sends itself, [inr] the user it attaches to the request before it
    calls [next()]. *)
Definition authenticate (jwt_verify : string → jwt_outcome)
    (authorization : option string) : Response + JWTPayload :=
  match truthy authorization with
  | None => inl (mkResponse 401 (Failure "No authorization token provided"))
  | Some authHeader =>
      if negb (startsWith_Bearer authHeader) then
        inl (mkResponse 401 (Failure "Invalid authorization format. Use: Bearer <token>"))
      else
        let token := substring_7 authHeader in
        match token with
        | "" => inl (mkResponse 401 (Failure "Token is empty"))
        | _ =>
            match verifyToken jwt_verify token with
            | inl message =>
                inl (mkResponse 401 (Failure (message_or message "Invalid or expired token")))
            | inr decoded => inr decoded
            end
        end
  end.

(** [optionalAuth] always calls [next()]: the result is the user of the
    request it passes on. *)
Definition optionalAuth (jwt_verify : string → jwt_outcome)
    (authorization : option string) : option JWTPayload :=
  match truthy authorization with
  | None => None
  | Some authHeader =>
      if negb (startsWith_Bearer authHeader) then None
      else
        let token := substring_7 authHeader in
        match token with
        | "" => None
        | _ =>
            match verifyToken jwt_verify token with
            | inl _ => None
            | inr decoded => Some decoded
            end
        end
  end.

(** ** routes/quizRoutes *)


(** ** utils/auth: the validators *)

(** A JavaScript string as its UTF-16 code units: [length] is its
    [.length], and a pattern without the [u] flag reads it unit by
    unit. *)
Abbreviation js_string := (list N) (only parsing).

Module RegExp.

(** The patterns of the validators: classes of code units, sequence and
    repetition. [Never] and [Alt] arise when a pattern is derived by a
    code unit. *)
Inductive t : Type :=
  | Never
  | Empty
  | Class (p : N → bool)
  | Seq (r1 r2 : t)
  | Alt (r1 r2 : t)
  | Star (r : t).

(** [r+] *)
Definition Plus (r : t) : t := Seq r (Star r).

Fixpoint nullable (r : t) : bool :=
  match r with
  | Never => false
  | Empty => true
  | Class _ => false
  | Seq r1 r2 => nullable r1 && nullable r2
  | Alt r1 r2 => nullable r1 || nullable r2
  | Star _ => true
  end.

(** What is left of [r] to match after the code unit [c]. *)
Fixpoint derive (c : N) (r : t) : t :=
  match r with
  | Never => Never
  | Empty => Never
  | Class p => if p c then Empty else Never
  | Seq r1 r2 =>
      Alt (Seq (derive c r1) r2) (if nullable r1 then derive c r2 else Never)
  | Alt r1 r2 => Alt (derive c r1) (derive c r2)
  | Star r => Seq (derive c r) (Star r)
  end.

(** The whole of [s] matches [r]. *)
Fixpoint matches (r : t) (s : js_string) : bool :=
  match s with
  | [] => nullable r
  | c :: s => matches (derive c r) s
  end.

(** A literal [/^...$/]: the pattern, and whether it is anchored at the
    start ([^]) and at the end ([$]); the validators use no flag. *)
Record literal := mk {
  from_start : bool;
  body : t;
  to_end : bool;
}.

Definition anything : t := Star (Class (fun _ => true)).

(** [re.test(s)]: some part of [s] matches, the part starting and ending
    where the anchors say. *)
Definition test (re : literal) (s : js_string) : bool :=
  matches
    (Seq (if from_start re then Empty else anything)
       (Seq (body re) (if to_end re then Empty else anything)))
    s.

(** [[lo-hi]] *)
Definition range (lo hi : N) (c : N) : bool := (lo <=? c)%N && (c <=? hi)%N.

Definition unit (u : N) (c : N) : bool := (c =? u)%N.

(** [\s]: the white space and the line terminators of ECMAScript. *)
Definition white_space (c : N) : bool :=
  existsb (N.eqb c)
    [9; 10; 11; 12; 13; 32; 160; 5760; 8232; 8233; 8239; 8287; 12288; 65279]%N
  || range 8192 8202 c.

End RegExp.

(** [[A-Z]], [[a-z]], [[0-9]] *)
Definition upper_case : N → bool := RegExp.range 65 90.
Definition lower_case : N → bool := RegExp.range 97 122.
Definition digit : N → bool := RegExp.range 48 57.

(** [[a-zA-Z0-9_]] *)
Definition word_unit (c : N) : bool :=
  lower_case c || upper_case c || digit c || RegExp.unit 95 c.

(** [[^\s@]] *)
Definition not_space_or_at (c : N) : bool :=
  negb (RegExp.white_space c || RegExp.unit 64 c).

(** [/^[^\s@]+@[^\s@]+\.[^\s@]+$/] *)
Definition emailRegex : RegExp.literal :=
  RegExp.mk true
    (RegExp.Seq (RegExp.Plus (RegExp.Class not_space_or_at))
       (RegExp.Seq (RegExp.Class (RegExp.unit 64))
          (RegExp.Seq (RegExp.Plus (RegExp.Class not_space_or_at))
             (RegExp.Seq (RegExp.Class (RegExp.unit 46))
                (RegExp.Plus (RegExp.Class not_space_or_at))))))
    true.

Definition isValidEmail (email : js_string) : bool := RegExp.test emailRegex email.

(** What [isValidPassword] and [isValidUsername] return. *)
Record validation := mkValidation {
  valid : bool;
  errors : list string;
}.

Definition isValidPassword (password : js_string) : validation :=
  let errors := [] in
  let errors :=
    if (length password <? 8)%nat
    then errors ++ ["Password must be at least 8 characters long"]
    else errors in
  let hasUpperCase :=
    RegExp.test (RegExp.mk false (RegExp.Class upper_case) false) password in
  let hasLowerCase :=
    RegExp.test (RegExp.mk false (RegExp.Class lower_case) false) password in
  let hasNumber :=
    RegExp.test (RegExp.mk false (RegExp.Class digit) false) password in
  let errors :=
    if negb hasUpperCase || negb hasLowerCase || negb hasNumber
    then errors ++ ["Password must contain uppercase, lowercase, and number"]
    else errors in
  mkValidation (length errors =? 0)%nat errors.

Definition isValidUsername (username : js_string) : validation :=
  let errors := [] in
  let errors :=
    if (length username <? 3)%nat
    then errors ++ ["Username must be at least 3 characters long"]
    else errors in
  let errors :=
    if (50 <? length username)%nat
    then errors ++ ["Username must be less than 50 characters"]
    else errors in
  let errors :=
    if negb (RegExp.test
               (RegExp.mk true (RegExp.Plus (RegExp.Class word_unit)) true) username)
    then errors ++ ["Username can only contain letters, numbers, and underscores"]
    else errors in
  mkValidation (length errors =? 0)%nat errors.

(** ** models/questionModel: getQuestionById *)


(** * Notions the statements use *)

(** The lookup [submitQuiz] builds for a submitted list of answers. *)
Definition lookup_for (db : Store) (ans : list Answer.t) : gmap string Question.t :=
  question_map (getQuestionsByIds db (Answer.question_id <$> ans)).

(** An answer whose question the store holds. *)
Definition matched (db : Store) (a : Answer.t) : Prop :=
  Answer.question_id a ∈ Question.id <$> questions db.

#[global] Instance matched_dec db a : Decision (matched db a).
Proof. unfold matched. apply _. Defined.

(** The detail record an answer gets, when its question is in the lookup. *)
Definition detail_of (questionMap : gmap string Question.t) (answer : Answer.t)
    : option Detail.t :=
  question ← questionMap !! Answer.question_id answer;
  Some (Detail.mk (Question.id question) (Question.question question)
          (Question.options question) (Answer.selected_answer answer)
          (Question.correct_answer question)
          (bool_decide (Answer.selected_answer answer = Question.correct_answer question))
          (Question.explanation question) (Question.difficulty question)
          (JsNumber.or_zero (Answer.time_taken answer))).

Definition correct_count (ds : list Detail.t) : nat :=
  length (filter (fun d => Detail.is_correct d = true) ds).

(** The rows the second loop inserts for the details [ds], the first of
    them under the [first]-th generated identity. *)
Definition answer_rows (attemptId : uuid) (first : nat) (ds : list Detail.t)
    : list UserAnswer.t :=
  imap (fun i d =>
          UserAnswer.mk (uuid_text (first + i)) attemptId (Detail.question_id d)
            (Detail.selected_answer d) (Detail.is_correct d) (Detail.time_taken d))
       ds.

(** The response and the store after a submission by the user [u] of the
    answers [ans] to the topic [topic] (lemma [submitQuiz_run]). *)
Definition submitted (db : Store) (u : JWTPayload) (topic : Topic.t)
    (ans : list Answer.t) (total_time : option Z) : Response * Store :=
  let ds := omap (detail_of (lookup_for db ans)) ans in
  let c := correct_count ds in
  let p := percentage_of c (length ans) in
  let attemptId := uuid_text (uuid_supply db) in
  (mkResponse 200
     (Submitted "Quiz submitted successfully"
        (QuizResult.mk attemptId c (length ans)
           (JsNumber.parseFloat (JsNumber.toFixed2 p))
           (grade_of p).1 (grade_of p).2 (JsNumber.or_zero total_time) ds
           (TopicAnalysis.mk (Topic.name topic) c (length ans) p))),
   mkStore (topics db) (questions db)
     (quiz_attempts db
        ++ [QuizAttempt.mk attemptId (userId u) (Topic.id topic) c (length ans) p
              (JsNumber.or_zero total_time)])
     (user_answers db ++ answer_rows attemptId (S (uuid_supply db)) ds)
     (S (uuid_supply db) + length ds)).

(** The request [req] with another array of answers. *)
Definition with_answers (req : AuthRequest) (ans : list Answer.t) : AuthRequest :=
  mkAuthRequest (user req)
    (mkQuizSubmission (topic_slug (body req)) (Some ans) (total_time (body req))).

(** Attempts carry generated identities, and an answer row points to an
    attempt whose identity was generated (the foreign key). *)
Definition store_wf (db : Store) : Prop :=
  (∀ a, a ∈ quiz_attempts db →
        ∃ k, (k < uuid_supply db)%nat ∧ QuizAttempt.id a = uuid_text k) ∧
  (∀ r, r ∈ user_answers db →
        ∃ k, (k < uuid_supply db)%nat ∧ UserAnswer.attempt_id r = uuid_text k).

(** The answer rows the store holds for an attempt. *)
Definition answers_of_attempt (db : Store) (attemptId : uuid) : list UserAnswer.t :=
  filter (fun r => UserAnswer.attempt_id r = attemptId) (user_answers db).

(** Follows the spec's words ("percentage == round(100*score/total, 2)"):
    the hundredths of [100 * score / total] rounded to the nearest, a tie
    going up ([half_up], round half away from zero) or to the even
    neighbour ([half_even]), and the number a two-decimal literal denotes. *)
Definition half_up (score total : nat) : Z :=
  (2 * (10000 * Z.of_nat score) + Z.of_nat total) / (2 * Z.of_nat total).

Definition half_even (score total : nat) : Z :=
  let q := 10000 * Z.of_nat score / Z.of_nat total in
  let r := (10000 * Z.of_nat score) mod Z.of_nat total in
  if 2 * r <? Z.of_nat total then q
  else if Z.of_nat total <? 2 * r then q + 1
  else if Z.even q then q else q + 1.

Definition decimal2 (n : Z) : float :=
  JsNumber.parseFloat (JsNumber.FixedDigits false n).

(** The claim "the percentage of every result is [100 * score / total]
    rounded to two decimals", for a way [round] of rounding. *)
Definition percentage_is_rounded_quotient (round : nat → nat → Z) : Prop :=
  ∀ req db resp db' msg res,
    handle (submitQuiz req) db = (resp, db') →
    json resp = Submitted msg res →
    QuizResult.percentage res
    = decimal2 (round (QuizResult.score res) (QuizResult.total_questions res)).

(** [toFixed(2)] of the percentage writes the half-up hundredths of the
    exact quotient; checked over a range of totals by evaluation. *)
Definition rounds_half_up (c t : nat) : bool :=
  match JsNumber.toFixed2 (percentage_of c t) with
  | JsNumber.FixedDigits false n => n =? half_up c t
  | _ => false
  end.

Definition rounds_half_up_below (bound : nat) : bool :=
  forallb (fun t => forallb (fun c => rounds_half_up c t) (seq 0 (S t)))
    (seq 1 (bound - 1)).

(** ** Notions of the further statements *)

(** The request [req] for another topic. *)
Definition with_slug (req : AuthRequest) (slug : option string) : AuthRequest :=
  mkAuthRequest (user req)
    (mkQuizSubmission slug (answers (body req)) (total_time (body req))).

(** The identities the store generated: those of the attempt rows and of
    the answer rows. *)
Definition generated_ids (db : Store) : list uuid :=
  (QuizAttempt.id <$> quiz_attempts db) ++ (UserAnswer.id <$> user_answers db).

(** What the schema asks of the rows of attempts and answers: primary keys
    are generated and pairwise distinct, an answer row references an
    attempt row and a question, an attempt row references a topic, and no
    attempt scores more than its total. *)
Record store_consistent (db : Store) : Prop := mkConsistent {
  keys_distinct : NoDup (generated_ids db);
  keys_generated :
    ∀ i, i ∈ generated_ids db → ∃ k, (k < uuid_supply db)%nat ∧ i = uuid_text k;
  answers_reference_attempts :
    ∀ r, r ∈ user_answers db →
         UserAnswer.attempt_id r ∈ QuizAttempt.id <$> quiz_attempts db;
  answers_reference_questions :
    ∀ r, r ∈ user_answers db →
         UserAnswer.question_id r ∈ Question.id <$> questions db;
  attempts_reference_topics :
    ∀ a, a ∈ quiz_attempts db → QuizAttempt.topic_id a ∈ Topic.id <$> topics db;
  attempts_score_bounded :
    ∀ a, a ∈ quiz_attempts db →
         (QuizAttempt.score a ≤ QuizAttempt.total_questions a)%nat;
}.

(** The order of the grades, F lowest. *)
Definition grade_rank (grade : string) : nat :=
  if decide (grade = "A+") then 6
  else if decide (grade = "A") then 5
  else if decide (grade = "B+") then 4
  else if decide (grade = "B") then 3
  else if decide (grade = "C") then 2
  else if decide (grade = "D") then 1
  else 0.

(** A perfect and an empty score give 100 and 0 percent; checked over a
    range of totals by evaluation. *)
Definition extreme_percentages_below (bound : nat) : bool :=
  forallb
    (fun n =>
       PrimFloat.Leibniz.eqb (percentage_of n n) 100
       && PrimFloat.Leibniz.eqb (percentage_of 0 n) 0)
    (seq 1 (bound - 1)).

(** The identity column of the rows a quiz is started with. *)
Definition issued_ids (rows : list row) : list uuid :=
  omap (fun r => match column "id" r with
                 | Some (VString i) => Some i
                 | _ => None
                 end) rows.

(** The questions of a topic, of one difficulty when one is asked for. *)
Definition questions_of (db : Store) (topicId : uuid) (difficulty : option string)
    : list Question.t :=
  match truthy difficulty with
  | Some d =>
      filter (fun q => Question.topic_id q = topicId ∧ Question.difficulty q = d)
        (questions db)
  | None => filter (fun q => Question.topic_id q = topicId) (questions db)
  end.

(** The strings a pattern matches. *)
Inductive lang : RegExp.t → js_string → Prop :=
  | lang_empty : lang RegExp.Empty []
  | lang_class p c : p c = true → lang (RegExp.Class p) [c]
  | lang_seq r1 r2 s1 s2 :
      lang r1 s1 → lang r2 s2 → lang (RegExp.Seq r1 r2) (s1 ++ s2)
  | lang_alt_l r1 r2 s : lang r1 s → lang (RegExp.Alt r1 r2) s
  | lang_alt_r r1 r2 s : lang r2 s → lang (RegExp.Alt r1 r2) s
  | lang_star_nil r : lang (RegExp.Star r) []
  | lang_star_cons r s1 s2 :
      lang r s1 → lang (RegExp.Star r) s2 → lang (RegExp.Star r) (s1 ++ s2).

(** Every code unit of [s] is in the class [p]; some code unit is. *)
Definition all_units (p : N → bool) (s : js_string) : Prop :=
  Forall (fun c => p c = true) s.

Definition some_unit (p : N → bool) (s : js_string) : Prop :=
  Exists (fun c => p c = true) s.

(** ** A store with a few of the seeded questions

    Two seeded topics, three of the JavaScript questions and one of the
    aptitude questions, under short identities. *)

Module Sample.

Definition javascript : Topic.t :=
  Topic.mk "t-js" "JavaScript" "javascript"
    "Test your JavaScript fundamentals and ES6+ features" "js" "intermediate" true None.

Definition aptitude : Topic.t :=
  Topic.mk "t-apt" "Aptitude" "aptitude"
    "Logical reasoning and quantitative aptitude questions" "apt" "beginner" true None.

Definition q_push : Question.t :=
  Question.mk "q-push" "t-js"
    "Which method is used to add elements to the end of an array?"
    ["shift()"; "push()"; "unshift()"; "pop()"] 1 "easy"
    "push() adds one or more elements to the end of an array and returns the new length.".

Definition q_destructuring : Question.t :=
  Question.mk "q-destructuring" "t-js"
    "Which ES6 feature allows you to extract values from arrays or objects?"
    ["Spread operator"; "Destructuring"; "Template literals"; "Arrow functions"] 1 "easy"
    "Destructuring assignment allows you to unpack values from arrays or properties from objects into distinct variables.".

Definition q_tdz : Question.t :=
  Question.mk "q-tdz" "t-js"
    "What is the temporal dead zone in JavaScript?"
    ["A deprecated feature"; "Time between variable creation and initialization";
     "A type of memory leak"; "A debugging tool"] 1 "hard"
    "The temporal dead zone is the period between entering scope and variable initialization where accessing the variable throws a ReferenceError.".

Definition q_train : Question.t :=
  Question.mk "q-train" "t-apt"
    "If a train travels 60 km in 45 minutes, what is its speed in km/h?"
    ["60 km/h"; "70 km/h"; "80 km/h"; "90 km/h"] 2 "easy"
    "Speed = Distance/Time. 60 km / 0.75 hours = 80 km/h.".

Definition db : Store :=
  mkStore [javascript; aptitude] [q_push; q_destructuring; q_tdz; q_train] [] [] 0.

Definition alice : JWTPayload := mkJWTPayload "u-alice" "alice@example.com" "alice".

Definition request (ans : list Answer.t) : AuthRequest :=
  mkAuthRequest (Some alice) (mkQuizSubmission (Some "javascript") (Some ans) (Some 42)).

(** One right answer, one answer to a question the store does not hold,
    one wrong answer. *)
Definition mixed : list Answer.t :=
  [Answer.mk "q-push" 1 (Some 3); Answer.mk "q-forged" 0 None;
   Answer.mk "q-destructuring" 0 (Some 5)].

(** 160 answers, 23 of them right. *)
Definition tie : list Answer.t :=
  replicate 23 (Answer.mk "q-push" 1 None) ++ replicate 137 (Answer.mk "q-push" 0 None).

(** The result a response carries ([no_result] when it carries none). *)
Definition no_result : QuizResult.t :=
  QuizResult.mk "" 0 0 0 "" "" 0 [] (TopicAnalysis.mk "" 0 0 0).

Definition result_in (r : Response) : QuizResult.t :=
  match json r with
  | Submitted _ res => res
  | Failure _ => no_result
  end.

Definition after_mixed : Response * Store :=
  Eval vm_compute in handle (submitQuiz (request mixed)) db.

Definition mixed_result : QuizResult.t :=
  Eval vm_compute in result_in after_mixed.1.

Definition after_empty : Response * Store :=
  Eval vm_compute in handle (submitQuiz (request [])) db.

Definition after_tie : Response * Store :=
  Eval vm_compute in handle (submitQuiz (request tie)) db.

Definition tie_result : QuizResult.t :=
  Eval vm_compute in result_in after_tie.1.

(** The same request once more, against the store the first run left. *)
Definition after_mixed_again : Response * Store :=
  Eval vm_compute in handle (submitQuiz (request mixed)) after_mixed.2.

End Sample.

(** ** Sample submissions for the further statements *)

Module Sample2.

(** The same question answered right twice. *)
Definition twice : list Answer.t :=
  [Answer.mk "q-push" 1 None] ++ [Answer.mk "q-push" 1 None].

Definition after_twice : Response * Store :=
  Eval vm_compute in handle (submitQuiz (Sample.request twice)) Sample.db.

(** An aptitude question answered right, under the topic javascript. *)
Definition foreign : list Answer.t := [Answer.mk "q-train" 2 None].

Definition after_foreign : Response * Store :=
  Eval vm_compute in handle (submitQuiz (Sample.request foreign)) Sample.db.

Definition after_foreign_aptitude : Response * Store :=
  Eval vm_compute in
    handle (submitQuiz (with_slug (Sample.request foreign) (Some "aptitude"))) Sample.db.


(** Two right answers of two. *)
Definition perfect : list Answer.t :=
  [Answer.mk "q-push" 1 None; Answer.mk "q-tdz" 1 (Some 9)].

Definition after_perfect : Response * Store :=
  Eval vm_compute in handle (submitQuiz (Sample.request perfect)) Sample.db.

(** A verifier that knows one token, alice's. *)
Definition jwt_verify (token : string) : jwt_outcome :=
  if decide (token = "good") then JwtPayload Sample.alice else JwtWebTokenError.


End Sample2.

(** * Properties *)

(** ** Comparisons of numbers *)

Module FloatOrder.

Lemma compare_cont_opp (m1 m2 : positive) :
  Pos.compare_cont Eq m2 m1 = CompOpp (Pos.compare_cont Eq m1 m2).
Proof. exact (Pos.compare_antisym m1 m2). Qed.

Lemma SFcompare_antisym (x y : spec_float) :
  SFcompare y x = CompOpp <$> SFcompare x y.
Proof.
  destruct x as [sx|sx| |sx mx ex], y as [sy|sy| |sy my ey]; simpl;
    try reflexivity;
    try (destruct sx; reflexivity); try (destruct sy; reflexivity);
    try (destruct sx, sy; reflexivity).
  f_equal. rewrite (Z.compare_antisym ey ex), compare_cont_opp.
  destruct sx, sy; simpl; try reflexivity;
    destruct (ey ?= ex); simpl; reflexivity.
Qed.

(** [x < y] excludes [y <= x]. *)
Lemma ltb_not_leb (x y : float) :
  PrimFloat.ltb x y = true → PrimFloat.leb y x = false.
Proof.
  rewrite ltb_spec, leb_spec. unfold SFltb, SFleb.
  rewrite (SFcompare_antisym (Prim2SF x) (Prim2SF y)).
  destruct (SFcompare (Prim2SF x) (Prim2SF y)) as [[]|]; simpl; congruence.
Qed.

(** What is below a mark is below every higher mark: [x < a] and
    [a <= b] give [x < b]. *)
Lemma SFcompare_lt_le_trans (x a b : spec_float) :
  SFltb x a = true → SFleb a b = true → SFltb x b = true.
Proof.
  unfold SFltb, SFleb.
  destruct x as [sx|sx| |sx mx ex], a as [sa|sa| |sa ma ea],
    b as [sb|sb| |sb mb eb]; simpl;
    try discriminate; try reflexivity;
    repeat match goal with
      | s : bool |- _ => destruct s
      end; simpl; try discriminate; try reflexivity.
  all: rewrite !Pos.compare_cont_spec.
  all: destruct (Z.compare_spec ex ea), (Z.compare_spec ea eb),
         (Z.compare_spec ex eb); simpl;
       try discriminate; try reflexivity; try (exfalso; lia).
  all: destruct (Pos.compare_spec mx ma), (Pos.compare_spec ma mb),
         (Pos.compare_spec mx mb); simpl;
       try discriminate; try reflexivity; try (exfalso; lia).
Qed.

Lemma ltb_leb_trans (x a b : float) :
  PrimFloat.ltb x a = true → PrimFloat.leb a b = true → PrimFloat.ltb x b = true.
Proof. rewrite !ltb_spec, leb_spec. apply SFcompare_lt_le_trans. Qed.

End FloatOrder.

(** ** Two decimals *)

(** [hundredths m e] is the integer nearest to [100 * m * 2^e], the larger
    of the two at a tie: no rounding of [m * 2^e] is involved. *)
Lemma hundredths_nearest (m : positive) (e : Z) :
  e < 0 →
  (2 * JsNumber.hundredths m e - 1) * 2 ^ (- e) ≤ 200 * Z.pos m
  ∧ 200 * Z.pos m < (2 * JsNumber.hundredths m e + 1) * 2 ^ (- e).
Proof.
  intros He. unfold JsNumber.hundredths.
  destruct (Z.leb_spec 0 e); [lia|].
  replace (1 - e) with (Z.succ (- e)) by lia.
  rewrite Z.pow_succ_r by lia.
  assert (0 < 2 ^ (- e)) as Hpos by (apply Z.pow_pos_nonneg; lia).
  set (k := 2 ^ (- e)) in *. set (a := 200 * Z.pos m + k).
  pose proof (Z.mul_div_le a (2 * k) ltac:(lia)).
  pose proof (Z.mul_succ_div_gt a (2 * k) ltac:(lia)).
  split; nia.
Qed.

Lemma hundredths_exact (m : positive) (e : Z) :
  0 ≤ e → JsNumber.hundredths m e = 100 * Z.pos m * 2 ^ e.
Proof.
  intros He. unfold JsNumber.hundredths.
  destruct (Z.leb_spec 0 e); [done|lia].
Qed.

(** Reading [n / 100] gives what the division of the two doubles gives
    (checked on the hundredths up to 20.00). *)
Lemma nearest_double_is_quotient :
  forallb
    (fun n =>
       PrimFloat.Leibniz.eqb (JsNumber.nearest_double (Z.of_nat n) 100)
         (JsNumber.of_nat n / 100)%float)
    (seq 1 2000) = true.
Proof. vm_compute. reflexivity. Qed.

(** ** The question queries *)

(** Two conditions that agree on the rows of a table select the same rows. *)
Lemma filter_agree {A} (P1 P2 : A → Prop)
    `{!∀ x, Decision (P1 x), !∀ x, Decision (P2 x)} (l : list A) :
  (∀ x, x ∈ l → P1 x ↔ P2 x) → filter P1 l = filter P2 l.
Proof.
  induction l as [|x l IH]; intros Hag; [done|].
  rewrite !filter_cons.
  rewrite IH by (intros y Hy; apply Hag; by right).
  destruct (decide (P1 x)) as [H1|H1], (decide (P2 x)) as [H2|H2]; try done.
  - exfalso. apply H2, (Hag x); [by left|done].
  - exfalso. apply H1, (Hag x); [by left|done].
Qed.

Section Queries.
Context (db : Store).
Local Abbreviation lookup_for := (lookup_for db).
Local Abbreviation matched := (matched db).

Lemma getQuestionsByIds_elem (ids : list uuid) (q : Question.t) :
  q ∈ getQuestionsByIds db ids ↔ q ∈ questions db ∧ Question.id q ∈ ids.
Proof. unfold getQuestionsByIds. rewrite list_elem_of_filter. tauto. Qed.

(** A key of the lookup is the identity of the question it gives, and
    that question is one of the listed ones. *)
Lemma question_map_lookup (qs : list Question.t) (k : uuid) (q : Question.t) :
  question_map qs !! k = Some q → q ∈ qs ∧ Question.id q = k.
Proof.
  unfold question_map.
  induction qs as [|q' qs IH] using rev_ind; simpl.
  - rewrite lookup_empty. discriminate.
  - rewrite foldl_app. simpl.
    destruct (decide (Question.id q' = k)) as [<-|Hne].
    + rewrite lookup_insert_eq. intros [= <-].
      split; [|done]. apply elem_of_app. right. by left.
    + rewrite lookup_insert_ne by done. intros [??]%IH.
      split; [|done]. apply elem_of_app. by left.
Qed.

Lemma question_map_is_Some (qs : list Question.t) (k : uuid) :
  is_Some (question_map qs !! k) ↔ k ∈ Question.id <$> qs.
Proof.
  split.
  - intros [q [??]%question_map_lookup]. subst. by apply list_elem_of_fmap_2.
  - unfold question_map.
    induction qs as [|q' qs IH] using rev_ind; simpl.
    + by intros ?%elem_of_nil.
    + rewrite foldl_app, fmap_app. simpl.
      destruct (decide (Question.id q' = k)) as [<-|Hne].
      * rewrite lookup_insert_eq. eauto.
      * rewrite lookup_insert_ne by done.
        intros [?|Hk%list_elem_of_singleton]%elem_of_app; [by apply IH|done].
Qed.

Lemma lookup_for_is_Some (ans : list Answer.t) (a : Answer.t) :
  a ∈ ans → is_Some (lookup_for ans !! Answer.question_id a) ↔ matched a.
Proof.
  intros Ha. unfold lookup_for, matched.
  rewrite question_map_is_Some, !list_elem_of_fmap.
  setoid_rewrite getQuestionsByIds_elem.
  split; intros (q & ? & ?); exists q; intuition.
  subst. replace (Question.id q) with (Answer.question_id a) by done.
  by apply list_elem_of_fmap_2.
Qed.

End Queries.

(** ** The scoring loop *)

Section Scoring.
Context (questionMap : gmap string Question.t).
Local Abbreviation detail_of := (detail_of questionMap).

Lemma correct_count_app (ds ds' : list Detail.t) :
  correct_count (ds ++ ds') = (correct_count ds + correct_count ds')%nat.
Proof. unfold correct_count. by rewrite filter_app, length_app. Qed.

Lemma correct_count_le (ds : list Detail.t) :
  (correct_count ds ≤ length ds)%nat.
Proof. apply length_filter. Qed.

Lemma score_step_spec (acc : nat * list Detail.t) (a : Answer.t) :
  score_step questionMap acc a
  = ((acc.1 + correct_count (option_list (detail_of a)))%nat,
     acc.2 ++ option_list (detail_of a)).
Proof.
  unfold score_step, detail_of.
  destruct (questionMap !! Answer.question_id a) as [q|]; simpl.
  - unfold correct_count.
    destruct (bool_decide _) eqn:E; rewrite filter_cons; simpl;
      f_equal; lia.
  - destruct acc. simpl. by rewrite Nat.add_0_r, app_nil_r.
Qed.

Lemma score_fold_spec (ans : list Answer.t) (acc : nat * list Detail.t) :
  foldl (score_step questionMap) acc ans
  = ((acc.1 + correct_count (omap detail_of ans))%nat,
     acc.2 ++ omap detail_of ans).
Proof.
  revert acc. induction ans as [|a ans IH]; intros acc.
  - destruct acc. simpl. by rewrite Nat.add_0_r, app_nil_r.
  - change (foldl (score_step questionMap) acc (a :: ans))
      with (foldl (score_step questionMap) (score_step questionMap acc a) ans).
    rewrite IH, score_step_spec. cbn [fst snd].
    assert (omap detail_of (a :: ans)
            = option_list (detail_of a) ++ omap detail_of ans) as ->
      by (simpl; destruct (detail_of a); reflexivity).
    by rewrite correct_count_app, app_assoc, Nat.add_assoc.
Qed.

(** The loop leaves the number of correct details and the details of the
    answers found in the lookup, in the order submitted. *)
Lemma score_loop_spec (ans : list Answer.t) :
  score_loop questionMap ans
  = (correct_count (omap detail_of ans), omap detail_of ans).
Proof. unfold score_loop. by rewrite score_fold_spec. Qed.

Lemma details_length (ans : list Answer.t) :
  length (omap detail_of ans)
  = length (filter (fun a => is_Some (questionMap !! Answer.question_id a)) ans).
Proof.
  induction ans as [|a ans IH]; simpl; [done|].
  rewrite filter_cons. unfold detail_of at 1.
  destruct (questionMap !! Answer.question_id a) as [q|]; simpl;
    [f_equal|]; exact IH.
Qed.

End Scoring.

(** ** What a submission answers and stores *)

Section Submit.

Lemma answer_rows_length attemptId first ds :
  length (answer_rows attemptId first ds) = length ds.
Proof. apply length_imap. Qed.

Lemma answer_rows_attempt attemptId first ds r :
  r ∈ answer_rows attemptId first ds → UserAnswer.attempt_id r = attemptId.
Proof.
  unfold answer_rows. rewrite list_elem_of_lookup. intros [i Hi].
  rewrite list_lookup_imap in Hi.
  destruct (ds !! i); simpl in Hi; [|discriminate].
  by injection Hi as <-.
Qed.

Lemma save_answers_run attemptId ds db :
  save_answers attemptId ds db
  = (inr tt,
     mkStore (topics db) (questions db) (quiz_attempts db)
       (user_answers db ++ answer_rows attemptId (uuid_supply db) ds)
       (uuid_supply db + length ds)).
Proof.
  revert db. induction ds as [|d ds IH]; intros db.
  - destruct db. simpl. unfold mret, handler_ret. simpl.
    by rewrite app_nil_r, Nat.add_0_r.
  - simpl. unfold mbind, handler_bind, execute. simpl.
    rewrite IH. simpl. rewrite <- app_assoc. simpl.
    rewrite Nat.add_succ_r. do 3 f_equal.
    unfold answer_rows. simpl. rewrite Nat.add_0_r. f_equal.
    apply imap_ext. intros i x _. simpl. by rewrite Nat.add_succ_r.
Qed.

Lemma submitQuiz_run req db u slug ans topic :
  user req = Some u →
  truthy (topic_slug (body req)) = Some slug →
  answers (body req) = Some ans →
  getTopicBySlug db slug = Some topic →
  handle (submitQuiz req) db = submitted db u topic ans (total_time (body req)).
Proof.
  intros Hu Hs Ha Ht.
  unfold handle, submitQuiz, mbind, handler_bind, mret, handler_ret, query.
  rewrite Hu, Hs, Ha. simpl. rewrite Ht. simpl.
  fold (lookup_for db ans). rewrite score_loop_spec.
  destruct (grade_of _) as [g f] eqn:Hg.
  unfold execute. simpl. rewrite save_answers_run. simpl.
  unfold submitted. rewrite Hg. reflexivity.
Qed.

Lemma submitQuiz_inv req db resp db' msg res :
  handle (submitQuiz req) db = (resp, db') →
  json resp = Submitted msg res →
  ∃ u slug ans topic,
    user req = Some u ∧
    truthy (topic_slug (body req)) = Some slug ∧
    answers (body req) = Some ans ∧
    getTopicBySlug db slug = Some topic ∧
    (resp, db') = submitted db u topic ans (total_time (body req)).
Proof.
  intros Hrun Hjson.
  destruct (user req) as [u|] eqn:Hu; cycle 1.
  { unfold handle, submitQuiz, mbind, handler_bind in Hrun. rewrite Hu in Hrun.
    simpl in Hrun. injection Hrun as <- <-. discriminate. }
  destruct (truthy (topic_slug (body req))) as [slug|] eqn:Hs; cycle 1.
  { unfold handle, submitQuiz, mbind, handler_bind in Hrun. rewrite Hu, Hs in Hrun.
    simpl in Hrun. injection Hrun as <- <-. discriminate. }
  destruct (answers (body req)) as [ans|] eqn:Ha; cycle 1.
  { unfold handle, submitQuiz, mbind, handler_bind in Hrun.
    rewrite Hu, Hs, Ha in Hrun.
    simpl in Hrun. injection Hrun as <- <-. discriminate. }
  destruct (getTopicBySlug db slug) as [topic|] eqn:Ht; cycle 1.
  { unfold handle, submitQuiz, mbind, handler_bind, query in Hrun.
    rewrite Hu, Hs, Ha in Hrun. simpl in Hrun. rewrite Ht in Hrun.
    simpl in Hrun. injection Hrun as <- <-. discriminate. }
  exists u, slug, ans, topic. repeat split; try done.
  rewrite <- Hrun. by apply (submitQuiz_run req db u slug ans topic).
Qed.

End Submit.

(** ** Grades *)

Section Grades.
Import FloatOrder.

(** Below the mark [a], the mark [b] at or above it is not reached. *)
Lemma below_mark (p a b : float) :
  PrimFloat.ltb p a = true → PrimFloat.leb a b = true → JsNumber.geb p b = false.
Proof. intros Hp Hab. apply ltb_not_leb. by apply (ltb_leb_trans p a b). Qed.

Lemma below_same_mark (p a : float) :
  PrimFloat.ltb p a = true → JsNumber.geb p a = false.
Proof. apply ltb_not_leb. Qed.

(** C3. The grade is a total function of the percentage: at or above 90
    it is A+, from 80 up to 90 A, from 70 B+, from 60 B, from 50 C, from
    40 D, below 40 F; the marks 90, 80, 70, 60, 50 and 40 themselves fall
    in the higher band; the grade is always one of the seven; and the
    feedback text is determined by the grade. *)
Theorem grade_bands :
  (∀ p : float,
     (PrimFloat.leb 90 p = true → (grade_of p).1 = "A+") ∧
     (PrimFloat.leb 80 p = true → PrimFloat.ltb p 90 = true → (grade_of p).1 = "A") ∧
     (PrimFloat.leb 70 p = true → PrimFloat.ltb p 80 = true → (grade_of p).1 = "B+") ∧
     (PrimFloat.leb 60 p = true → PrimFloat.ltb p 70 = true → (grade_of p).1 = "B") ∧
     (PrimFloat.leb 50 p = true → PrimFloat.ltb p 60 = true → (grade_of p).1 = "C") ∧
     (PrimFloat.leb 40 p = true → PrimFloat.ltb p 50 = true → (grade_of p).1 = "D") ∧
     (PrimFloat.ltb p 40 = true → (grade_of p).1 = "F")) ∧
  ((grade_of 90).1 = "A+" ∧ (grade_of 80).1 = "A" ∧ (grade_of 70).1 = "B+" ∧
   (grade_of 60).1 = "B" ∧ (grade_of 50).1 = "C" ∧ (grade_of 40).1 = "D") ∧
  (∀ p : float, (grade_of p).1 ∈ ["A+"; "A"; "B+"; "B"; "C"; "D"; "F"]) ∧
  (∀ p q : float, (grade_of p).1 = (grade_of q).1 → (grade_of p).2 = (grade_of q).2).
Proof.
  split; [|split; [|split]].
  - intros p. unfold grade_of.
    repeat split.
    + intros H. unfold JsNumber.geb. by rewrite H.
    + intros H L. rewrite (below_same_mark p 90 L).
      unfold JsNumber.geb at 1. by rewrite H.
    + intros H L.
      rewrite (below_mark p 80 90 L eq_refl), (below_same_mark p 80 L).
      unfold JsNumber.geb at 1. by rewrite H.
    + intros H L.
      rewrite (below_mark p 70 90 L eq_refl), (below_mark p 70 80 L eq_refl),
        (below_same_mark p 70 L).
      unfold JsNumber.geb at 1. by rewrite H.
    + intros H L.
      rewrite (below_mark p 60 90 L eq_refl), (below_mark p 60 80 L eq_refl),
        (below_mark p 60 70 L eq_refl), (below_same_mark p 60 L).
      unfold JsNumber.geb at 1. by rewrite H.
    + intros H L.
      rewrite (below_mark p 50 90 L eq_refl), (below_mark p 50 80 L eq_refl),
        (below_mark p 50 70 L eq_refl), (below_mark p 50 60 L eq_refl),
        (below_same_mark p 50 L).
      unfold JsNumber.geb at 1. by rewrite H.
    + intros L.
      by rewrite (below_mark p 40 90 L eq_refl), (below_mark p 40 80 L eq_refl),
        (below_mark p 40 70 L eq_refl), (below_mark p 40 60 L eq_refl),
        (below_mark p 40 50 L eq_refl), (below_same_mark p 40 L).
  - repeat split; reflexivity.
  - intros p. unfold grade_of.
    repeat (destruct (JsNumber.geb p _);
            [simpl; repeat first [by left | right]|]).
    simpl. repeat first [by left | right].
  - intros p q. unfold grade_of.
    repeat (destruct (JsNumber.geb p _));
      repeat (destruct (JsNumber.geb q _));
      simpl; intros H; try reflexivity; discriminate H.
Qed.

Lemma grade_bands_witness :
  (grade_of 85).1 = "A" ∧ (grade_of 39.5).1 = "F".
Proof.
  destruct grade_bands as [Hbands _].
  destruct (Hbands 85%float) as (_ & HA & _).
  destruct (Hbands 39.5%float) as (_ & _ & _ & _ & _ & _ & HF).
  split; [apply HA; reflexivity|apply HF; reflexivity].
Defined.

End Grades.

(** ** Question store access *)

Section RandomOrder.
Context {A : Type}.

Lemma insert_by_key_perm (x : N * A) (l : list (N * A)) :
  insert_by_key x l ≡ₚ x :: l.
Proof.
  induction l as [|y l IH]; simpl; [done|].
  destruct (x.1 <=? y.1)%N; [done|].
  rewrite IH. apply Permutation_swap.
Qed.

Lemma sort_by_key_perm (l : list (N * A)) :
  foldr insert_by_key [] l ≡ₚ l.
Proof.
  induction l as [|x l IH]; simpl; [done|].
  by rewrite insert_by_key_perm, IH.
Qed.

Lemma keyed_rows (key : nat → N) (rows : list A) :
  (imap (fun i r => (key i, r)) rows).*2 = rows.
Proof.
  revert key. induction rows as [|r rows IH]; intros key; simpl; [done|].
  f_equal. apply (IH (key ∘ S)).
Qed.

(** The random order is a rearrangement of the rows. *)
Lemma order_by_random_perm (rand : list N) (rows : list A) :
  order_by_random rand rows ≡ₚ rows.
Proof.
  unfold order_by_random. rewrite sort_by_key_perm.
  by rewrite (keyed_rows (fun i => default 0%N (rand !! i))).
Qed.

Lemma limit_rows_inr (n : Z) (rows out : list A) :
  limit_rows n rows = inr out →
  0 ≤ n ∧ Z.of_nat (length out) ≤ n ∧ out ⊆ rows.
Proof.
  unfold limit_rows. destruct (Z.ltb_spec n 0); [discriminate|].
  intros [= <-]. rewrite length_take. split; [done|split; [lia|]].
  intros x. apply subseteq_take.
Qed.

End RandomOrder.

Lemma select_for_quiz (q : Question.t) :
  select ["id"; "question"; "options"; "difficulty"] (question_columns q)
  = [ ("id", VString (Question.id q)); ("question", VString (Question.question q));
      ("options", VArray (Question.options q));
      ("difficulty", VString (Question.difficulty q)) ].
Proof. reflexivity. Qed.

(** C7. Whatever the topic, the limit and the difficulty, every row
    [getQuestionsForQuiz] returns carries the columns id, question,
    options and difficulty of a question of the topic (of the difficulty
    asked for, when one is) and nothing else (no correct_answer, no
    explanation), and there are at most [limit] rows (10 when no limit is
    given); the query does return rows whenever the limit is not negative. *)
Theorem quiz_questions_withhold_answers
    (db : Store) (rand : list N) (topicId : uuid) (limit : option Z)
    (difficulty : option string) :
  (0 ≤ default 10 limit →
   ∃ rows, getQuestionsForQuiz db rand topicId limit difficulty = inr rows) ∧
  (∀ rows, getQuestionsForQuiz db rand topicId limit difficulty = inr rows →
     Z.of_nat (length rows) ≤ default 10 limit ∧
     ∀ r, r ∈ rows →
       r.*1 = ["id"; "question"; "options"; "difficulty"] ∧
       column "correct_answer" r = None ∧
       column "explanation" r = None ∧
       ∃ q, q ∈ questions db ∧ Question.topic_id q = topicId ∧
            (∀ d, truthy difficulty = Some d → Question.difficulty q = d) ∧
            r = [ ("id", VString (Question.id q));
                  ("question", VString (Question.question q));
                  ("options", VArray (Question.options q));
                  ("difficulty", VString (Question.difficulty q)) ]).
Proof.
  unfold getQuestionsForQuiz. split.
  - intros Hl. unfold limit_rows.
    destruct (Z.ltb_spec (default 10 limit) 0); [lia|eauto].
  - intros rows (_ & Hlen & Hsub)%limit_rows_inr. split; [done|].
    intros r Hr%Hsub. rewrite order_by_random_perm in Hr.
    apply list_elem_of_fmap in Hr as (q & -> & Hq).
    change ((select ["id"; "question"; "options"; "difficulty"] ∘ question_columns) q)
      with (select ["id"; "question"; "options"; "difficulty"] (question_columns q)).
    rewrite select_for_quiz.
    repeat split; try reflexivity.
    exists q. destruct (truthy difficulty) as [d|].
    + apply list_elem_of_filter in Hq as [[? ?] ?].
      repeat split; try done. by intros ? [= <-].
    + apply list_elem_of_filter in Hq as [? ?].
      repeat split; try done.
Qed.

Lemma quiz_questions_withhold_answers_witness :
  ∃ rows,
    getQuestionsForQuiz Sample.db [5; 1; 3]%N "t-js" (Some 2) (Some "easy") = inr rows ∧
    Z.of_nat (length rows) ≤ 2 ∧
    ∀ r, r ∈ rows →
      r.*1 = ["id"; "question"; "options"; "difficulty"] ∧
      column "correct_answer" r = None ∧ column "explanation" r = None.
Proof.
  destruct (quiz_questions_withhold_answers Sample.db [5; 1; 3]%N "t-js"
              (Some 2) (Some "easy")) as [Hsome Hall].
  destruct Hsome as [rows Hrows]; [simpl; lia|].
  exists rows. split; [done|].
  destruct (Hall rows Hrows) as [Hlen Hrow]. split; [done|].
  intros r Hr. destruct (Hrow r Hr) as (? & ? & ? & _). done.
Defined.

(** The sample draw: the two easy JavaScript questions, the second first. *)
Lemma sample_quiz_questions :
  getQuestionsForQuiz Sample.db [5; 1; 3]%N "t-js" (Some 2) (Some "easy")
  = inr [ [ ("id", VString "q-destructuring");
            ("question",
             VString "Which ES6 feature allows you to extract values from arrays or objects?");
            ("options",
             VArray ["Spread operator"; "Destructuring"; "Template literals";
                     "Arrow functions"]);
            ("difficulty", VString "easy") ];
          [ ("id", VString "q-push");
            ("question",
             VString "Which method is used to add elements to the end of an array?");
            ("options", VArray ["shift()"; "push()"; "unshift()"; "pop()"]);
            ("difficulty", VString "easy") ] ] ∧
  getQuestionsForQuiz Sample.db [] "t-js" (Some (-1)) None = inl LimitMustNotBeNegative.
Proof. split; vm_compute; reflexivity. Qed.



(** ** Scoring a submission *)

(** Reads an accepted submission back into [submitted]. *)
Ltac submitted_inv Hrun Hjson :=
  let u := fresh "u" in
  let slug := fresh "slug" in
  let ans := fresh "ans" in
  let topic := fresh "topic" in
  let Hu := fresh "Hu" in
  let Hs := fresh "Hs" in
  let Ha := fresh "Ha" in
  let Ht := fresh "Ht" in
  let Heq := fresh "Heq" in
  destruct (submitQuiz_inv _ _ _ _ _ _ Hrun Hjson)
    as (u & slug & ans & topic & Hu & Hs & Ha & Ht & Heq);
  unfold submitted in Heq; injection Heq as -> ->;
  simpl in Hjson; injection Hjson as <- <-.

Lemma details_matched_length (db : Store) (ans : list Answer.t) :
  length (omap (detail_of (lookup_for db ans)) ans) = length (filter (matched db) ans).
Proof.
  rewrite details_length. f_equal. apply filter_agree.
  intros a Ha. by apply lookup_for_is_Some.
Qed.

Lemma length_filter_lt {A} (P : A → Prop) `{!∀ x, Decision (P x)} (l : list A) :
  (length (filter P l) < length l)%nat ↔ ∃ x, x ∈ l ∧ ¬ P x.
Proof.
  induction l as [|x l IH]; simpl.
  - split; [lia|]. intros (x & Hx & _). by apply elem_of_nil in Hx.
  - rewrite filter_cons. pose proof (length_filter P l).
    destruct (decide (P x)) as [Hp|Hp]; simpl.
    + rewrite <- Nat.succ_lt_mono, IH. split.
      * intros (y & ? & ?). exists y. split; [by right|done].
      * intros (y & [->|?]%elem_of_cons & ?); [done|eauto].
    + split; [|lia]. intros _. exists x. split; [by left|done].
Qed.

(** C6. For every accepted submission, the score lies between 0 and
    total_questions, and total_questions is the length of the submitted
    list of answers. *)
Theorem score_within_total req db resp db' msg res :
  handle (submitQuiz req) db = (resp, db') →
  json resp = Submitted msg res →
  ∃ ans, answers (body req) = Some ans ∧
         QuizResult.total_questions res = length ans ∧
         (0 ≤ QuizResult.score res ≤ QuizResult.total_questions res)%nat.
Proof.
  intros Hrun Hjson. submitted_inv Hrun Hjson.
  exists ans. simpl. repeat split; [done|lia|].
  etrans; [apply correct_count_le|].
  rewrite details_matched_length. apply length_filter.
Qed.

Lemma score_within_total_witness :
  ∃ ans, answers (body (Sample.request Sample.mixed)) = Some ans ∧
         QuizResult.total_questions Sample.mixed_result = length ans ∧
         (0 ≤ QuizResult.score Sample.mixed_result
            ≤ QuizResult.total_questions Sample.mixed_result)%nat.
Proof.
  apply (score_within_total (Sample.request Sample.mixed) Sample.db
           Sample.after_mixed.1 Sample.after_mixed.2
           "Quiz submitted successfully" Sample.mixed_result);
    vm_compute; reflexivity.
Defined.

(** An answer to a question the store does not hold finds nothing in the
    lookup, and asking for its question changes nothing in the lookup. *)
Lemma unmatched_lookup (db : Store) (l1 l2 : list Answer.t) (a : Answer.t) :
  ¬ matched db a →
  lookup_for db (l1 ++ a :: l2) = lookup_for db (l1 ++ l2) ∧
  detail_of (lookup_for db (l1 ++ a :: l2)) a = None.
Proof.
  intros Hna. split.
  - unfold lookup_for, getQuestionsByIds. f_equal. apply filter_agree.
    intros q Hq. rewrite !fmap_app, fmap_cons, !elem_of_app, elem_of_cons.
    split; [|tauto]. intros [?|[Heq|?]]; [tauto| |tauto].
    exfalso. apply Hna. unfold matched. rewrite <- Heq.
    by apply list_elem_of_fmap_2.
  - unfold detail_of.
    destruct (lookup_for db (l1 ++ a :: l2) !! Answer.question_id a) eqn:E; [|done].
    exfalso. apply Hna.
    apply (lookup_for_is_Some db (l1 ++ a :: l2)); [|eauto].
    rewrite elem_of_app, elem_of_cons. tauto.
Qed.

(** A detail record names a question of the store. *)
Lemma detail_question (db : Store) (ans : list Answer.t) (d : Detail.t) :
  d ∈ omap (detail_of (lookup_for db ans)) ans →
  Detail.question_id d ∈ Question.id <$> questions db.
Proof.
  rewrite list_elem_of_omap. intros (a & Ha & Hd).
  unfold detail_of in Hd.
  destruct (lookup_for db ans !! Answer.question_id a) as [q|] eqn:E;
    simpl in Hd; [|discriminate].
  injection Hd as <-. simpl.
  apply question_map_lookup in E as [Hq _].
  apply getQuestionsByIds_elem in Hq as [Hq _].
  by apply list_elem_of_fmap_2.
Qed.

(** C2. In every accepted submission, an answer whose question_id is
    absent from the lookup built from the authoritative questions adds
    nothing to the score and gets no detail record: the score and the
    details are those of the submission without that answer, and no detail
    names its question; total_questions is the length of the whole
    submitted list, that answer included. *)
Theorem unmatched_answer_skipped req db l1 a l2 resp db' msg res :
  answers (body req) = Some (l1 ++ a :: l2) →
  lookup_for db (l1 ++ a :: l2) !! Answer.question_id a = None →
  handle (submitQuiz req) db = (resp, db') →
  json resp = Submitted msg res →
  QuizResult.total_questions res = length (l1 ++ a :: l2) ∧
  (∀ d, d ∈ QuizResult.answers res → Detail.question_id d ≠ Answer.question_id a) ∧
  ∃ resp0 db0 res0,
    handle (submitQuiz (with_answers req (l1 ++ l2))) db = (resp0, db0) ∧
    json resp0 = Submitted msg res0 ∧
    QuizResult.score res = QuizResult.score res0 ∧
    QuizResult.answers res = QuizResult.answers res0 ∧
    QuizResult.total_questions res = S (QuizResult.total_questions res0).
Proof.
  intros Hans Hnone Hrun Hjson. submitted_inv Hrun Hjson.
  rewrite Hans in Ha. injection Ha as <-.
  assert (¬ matched db a) as Hna.
  { intros Hm. apply (lookup_for_is_Some db (l1 ++ a :: l2)) in Hm as [q Hq].
    - by rewrite Hnone in Hq.
    - apply elem_of_app. right. by left. }
  destruct (unmatched_lookup db l1 l2 a Hna) as [Hl Hd].
  assert (omap (detail_of (lookup_for db (l1 ++ a :: l2))) (l1 ++ a :: l2)
          = omap (detail_of (lookup_for db (l1 ++ l2))) (l1 ++ l2)) as Hds.
  { rewrite !omap_app. simpl. rewrite Hd. by rewrite Hl. }
  simpl. split; [done|split].
  - intros d Hd' Heq. apply detail_question in Hd'.
    apply Hna. unfold matched. by rewrite <- Heq.
  - eexists _, _, _. split.
    + apply (submitQuiz_run (with_answers req (l1 ++ l2)) db u slug (l1 ++ l2) topic);
        done.
    + simpl. split; [done|]. rewrite Hds.
      repeat split. rewrite !length_app. simpl. lia.
Qed.

Lemma unmatched_answer_skipped_witness :
  QuizResult.total_questions Sample.mixed_result = 3%nat ∧
  (∀ d, d ∈ QuizResult.answers Sample.mixed_result →
        Detail.question_id d ≠ "q-forged") ∧
  ∃ resp0 db0 res0,
    handle (submitQuiz
              (with_answers (Sample.request Sample.mixed)
                 [Answer.mk "q-push" 1 (Some 3); Answer.mk "q-destructuring" 0 (Some 5)]))
           Sample.db = (resp0, db0) ∧
    json resp0 = Submitted "Quiz submitted successfully" res0 ∧
    QuizResult.score Sample.mixed_result = QuizResult.score res0 ∧
    QuizResult.answers Sample.mixed_result = QuizResult.answers res0 ∧
    QuizResult.total_questions Sample.mixed_result = S (QuizResult.total_questions res0).
Proof.
  apply (unmatched_answer_skipped (Sample.request Sample.mixed) Sample.db
           [Answer.mk "q-push" 1 (Some 3)] (Answer.mk "q-forged" 0 None)
           [Answer.mk "q-destructuring" 0 (Some 5)]
           Sample.after_mixed.1 Sample.after_mixed.2
           "Quiz submitted successfully" Sample.mixed_result).
  - reflexivity.
  - vm_compute. reflexivity.
  - vm_compute. reflexivity.
  - reflexivity.
Defined.

(** ** What a submission persists *)

Lemma uuid_text_inj (m n : nat) : uuid_text m = uuid_text n → m = n.
Proof. unfold uuid_text. apply (inj pretty). Qed.

Lemma filter_all {A} (P : A → Prop) `{!∀ x, Decision (P x)} (l : list A) :
  (∀ x, x ∈ l → P x) → filter P l = l.
Proof.
  induction l as [|x l IH]; intros Hall; [done|].
  rewrite filter_cons, decide_True by (apply Hall; by left).
  f_equal. apply IH. intros y Hy. apply Hall. by right.
Qed.

Lemma filter_none {A} (P : A → Prop) `{!∀ x, Decision (P x)} (l : list A) :
  (∀ x, x ∈ l → ¬ P x) → filter P l = [].
Proof.
  induction l as [|x l IH]; intros Hnone; [done|].
  rewrite filter_cons, decide_False by (apply Hnone; by left).
  apply IH. intros y Hy. apply Hnone. by right.
Qed.

(** Before a submission, the store holds no answer row for the identity
    its attempt will get. *)
Lemma no_rows_for_next_attempt (db : Store) :
  store_wf db → answers_of_attempt db (uuid_text (uuid_supply db)) = [].
Proof.
  intros [_ Hwf]. unfold answers_of_attempt.
  apply filter_none. intros r Hr Heq.
  apply Hwf in Hr as (k & Hk & Hid).
  rewrite Hid in Heq. apply uuid_text_inj in Heq. lia.
Qed.

(** The rows held for the new attempt are the rows its submission adds. *)
Lemma new_attempt_rows (db : Store) atts (first : nat) (aid : uuid) ds supply :
  store_wf db →
  aid = uuid_text (uuid_supply db) →
  answers_of_attempt
    (mkStore (topics db) (questions db) atts
       (user_answers db ++ answer_rows aid first ds) supply) aid
  = answer_rows aid first ds.
Proof.
  intros Hwf ->. unfold answers_of_attempt. simpl. rewrite filter_app.
  fold (answers_of_attempt db (uuid_text (uuid_supply db))).
  rewrite (no_rows_for_next_attempt db Hwf). simpl.
  apply filter_all. intros r. apply answer_rows_attempt.
Qed.

(** C10. After every accepted submission into a well-formed store, the
    answer rows stored for the new attempt are as many as the submitted
    answers whose question the store holds, each naming such a question,
    while the attempt row keeps the length of the whole submitted list as
    total_questions: the rows are fewer than total_questions exactly when
    some submitted answer names no question of the store. *)
Theorem answer_rows_match_found req db resp db' msg res :
  store_wf db →
  handle (submitQuiz req) db = (resp, db') →
  json resp = Submitted msg res →
  ∃ ans attempt,
    answers (body req) = Some ans ∧
    attempt ∈ quiz_attempts db' ∧
    QuizAttempt.id attempt = QuizResult.attempt_id res ∧
    QuizAttempt.total_questions attempt = length ans ∧
    length (answers_of_attempt db' (QuizResult.attempt_id res))
    = length (filter (matched db) ans) ∧
    (∀ r, r ∈ answers_of_attempt db' (QuizResult.attempt_id res) →
          UserAnswer.question_id r ∈ Question.id <$> questions db) ∧
    ((length (answers_of_attempt db' (QuizResult.attempt_id res))
      < QuizAttempt.total_questions attempt)%nat
     ↔ ∃ a, a ∈ ans ∧ ¬ matched db a).
Proof.
  intros Hwf Hrun Hjson. submitted_inv Hrun Hjson.
  set (ds := omap (detail_of (lookup_for db ans)) ans).
  eexists ans, _. simpl.
  rewrite !(new_attempt_rows db _ _ _ ds _ Hwf eq_refl), answer_rows_length.
  split; [done|]. split; [apply elem_of_app; right; by left|].
  simpl. split; [done|]. split; [done|].
  split; [apply details_matched_length|]. split.
  - intros r. unfold answer_rows. rewrite list_elem_of_lookup. intros [i Hi].
    rewrite list_lookup_imap in Hi.
    destruct (ds !! i) as [d|] eqn:Hd; simpl in Hi; [|discriminate].
    injection Hi as <-. simpl.
    apply (detail_question db ans). by apply list_elem_of_lookup_2 in Hd.
  - unfold ds. rewrite details_matched_length. apply length_filter_lt.
Qed.

Lemma answer_rows_match_found_witness :
  ∃ ans attempt,
    answers (body (Sample.request Sample.mixed)) = Some ans ∧
    attempt ∈ quiz_attempts Sample.after_mixed.2 ∧
    QuizAttempt.id attempt = QuizResult.attempt_id Sample.mixed_result ∧
    QuizAttempt.total_questions attempt = length ans ∧
    length (answers_of_attempt Sample.after_mixed.2
              (QuizResult.attempt_id Sample.mixed_result))
    = length (filter (matched Sample.db) ans) ∧
    (∀ r, r ∈ answers_of_attempt Sample.after_mixed.2
                (QuizResult.attempt_id Sample.mixed_result) →
          UserAnswer.question_id r ∈ Question.id <$> questions Sample.db) ∧
    ((length (answers_of_attempt Sample.after_mixed.2
                (QuizResult.attempt_id Sample.mixed_result))
      < QuizAttempt.total_questions attempt)%nat
     ↔ ∃ a, a ∈ ans ∧ ¬ matched Sample.db a).
Proof.
  apply (answer_rows_match_found (Sample.request Sample.mixed) Sample.db
           Sample.after_mixed.1 Sample.after_mixed.2
           "Quiz submitted successfully" Sample.mixed_result).
  - split; intros x Hx; by apply elem_of_nil in Hx.
  - vm_compute. reflexivity.
  - reflexivity.
Defined.

(** The sample submission stores two answer rows for an attempt whose
    total_questions is three. *)
Lemma sample_rows_fewer_than_total :
  length (answers_of_attempt Sample.after_mixed.2
            (QuizResult.attempt_id Sample.mixed_result)) = 2%nat ∧
  QuizAttempt.total_questions <$> quiz_attempts Sample.after_mixed.2 = [3%nat].
Proof. split; vm_compute; reflexivity. Qed.

(** ** Submitting twice *)

(** The queries of a submission read the topics and the questions only. *)
Lemma same_catalogue (db db1 : Store) :
  topics db1 = topics db → questions db1 = questions db →
  (∀ slug, getTopicBySlug db1 slug = getTopicBySlug db slug) ∧
  (∀ ans, lookup_for db1 ans = lookup_for db ans).
Proof.
  intros Ht Hq. split.
  - intros slug. unfold getTopicBySlug. by rewrite Ht, Hq.
  - intros ans. unfold lookup_for, getQuestionsByIds. by rewrite Hq.
Qed.

(** C8. Scoring is a function of the submitted answers and the questions
    held: the same request, submitted again after it was accepted, is
    accepted again with the same score, total, percentage, grade,
    feedback, details and topic analysis; it gets an attempt of its own
    (another identity, a second stored row with the same score), since
    nothing looks for an earlier identical submission. *)
Theorem resubmission_scores_alike req db resp1 db1 msg res1 :
  handle (submitQuiz req) db = (resp1, db1) →
  json resp1 = Submitted msg res1 →
  ∃ resp2 db2 res2 a1 a2,
    handle (submitQuiz req) db1 = (resp2, db2) ∧
    json resp2 = Submitted msg res2 ∧
    QuizResult.score res2 = QuizResult.score res1 ∧
    QuizResult.total_questions res2 = QuizResult.total_questions res1 ∧
    QuizResult.percentage res2 = QuizResult.percentage res1 ∧
    QuizResult.grade res2 = QuizResult.grade res1 ∧
    QuizResult.feedback res2 = QuizResult.feedback res1 ∧
    QuizResult.answers res2 = QuizResult.answers res1 ∧
    QuizResult.topic_analysis res2 = QuizResult.topic_analysis res1 ∧
    QuizResult.attempt_id res2 ≠ QuizResult.attempt_id res1 ∧
    quiz_attempts db2 = quiz_attempts db ++ [a1; a2] ∧
    QuizAttempt.id a1 = QuizResult.attempt_id res1 ∧
    QuizAttempt.id a2 = QuizResult.attempt_id res2 ∧
    QuizAttempt.score a1 = QuizAttempt.score a2.
Proof.
  intros Hrun Hjson. submitted_inv Hrun Hjson.
  set (ds := omap (detail_of (lookup_for db ans)) ans).
  set (db1 := mkStore _ _ _ _ _).
  destruct (same_catalogue db db1 eq_refl eq_refl) as [Htopic Hlookup].
  eexists _, _, _, _, _. split.
  { apply (submitQuiz_run req db1 u slug ans topic); try done.
    all: by rewrite Htopic. }
  unfold submitted. rewrite Hlookup. fold ds. simpl.
  repeat (split; [reflexivity|]).
  split; [intros Heq%uuid_text_inj; lia|].
  split; [by rewrite <- app_assoc|].
  repeat split.
Qed.

Lemma resubmission_scores_alike_witness :
  ∃ resp2 db2 res2 a1 a2,
    handle (submitQuiz (Sample.request Sample.mixed)) Sample.after_mixed.2
    = (resp2, db2) ∧
    json resp2 = Submitted "Quiz submitted successfully" res2 ∧
    QuizResult.score res2 = QuizResult.score Sample.mixed_result ∧
    QuizResult.total_questions res2 = QuizResult.total_questions Sample.mixed_result ∧
    QuizResult.percentage res2 = QuizResult.percentage Sample.mixed_result ∧
    QuizResult.grade res2 = QuizResult.grade Sample.mixed_result ∧
    QuizResult.feedback res2 = QuizResult.feedback Sample.mixed_result ∧
    QuizResult.answers res2 = QuizResult.answers Sample.mixed_result ∧
    QuizResult.topic_analysis res2 = QuizResult.topic_analysis Sample.mixed_result ∧
    QuizResult.attempt_id res2 ≠ QuizResult.attempt_id Sample.mixed_result ∧
    quiz_attempts db2 = quiz_attempts Sample.db ++ [a1; a2] ∧
    QuizAttempt.id a1 = QuizResult.attempt_id Sample.mixed_result ∧
    QuizAttempt.id a2 = QuizResult.attempt_id res2 ∧
    QuizAttempt.score a1 = QuizAttempt.score a2.
Proof.
  apply (resubmission_scores_alike (Sample.request Sample.mixed) Sample.db
           Sample.after_mixed.1 Sample.after_mixed.2
           "Quiz submitted successfully" Sample.mixed_result).
  - vm_compute. reflexivity.
  - reflexivity.
Defined.

(** The second run of the sample request: attempt 3 after attempt 0, one
    right answer of three both times. *)
Lemma sample_resubmission :
  handle (submitQuiz (Sample.request Sample.mixed)) Sample.after_mixed.2
  = Sample.after_mixed_again ∧
  QuizResult.attempt_id Sample.mixed_result = "0" ∧
  QuizResult.attempt_id (Sample.result_in Sample.after_mixed_again.1) = "3" ∧
  QuizAttempt.score <$> quiz_attempts Sample.after_mixed_again.2 = [1%nat; 1%nat].
Proof. repeat split; vm_compute; reflexivity. Qed.

(** ** The percentage of a result *)

Lemma rounds_half_up_table : rounds_half_up_below 160 = true.
Proof. vm_compute. reflexivity. Qed.

Lemma rounds_half_up_below_spec (bound c t : nat) :
  rounds_half_up_below bound = true →
  (1 ≤ t < bound)%nat → (c ≤ t)%nat → rounds_half_up c t = true.
Proof.
  unfold rounds_half_up_below. rewrite forallb_forall. intros Htable Ht Hc.
  specialize (Htable t). rewrite forallb_forall in Htable.
  apply Htable; apply in_seq; lia.
Qed.

Lemma rounds_half_up_spec (c t : nat) :
  (1 ≤ t < 160)%nat → (c ≤ t)%nat →
  JsNumber.toFixed2 (percentage_of c t) = JsNumber.FixedDigits false (half_up c t).
Proof.
  intros Ht Hc.
  pose proof (rounds_half_up_below_spec 160 c t rounds_half_up_table Ht Hc) as Hct.
  unfold rounds_half_up in Hct.
  destruct (JsNumber.toFixed2 (percentage_of c t)) as [x|[] n]; try discriminate.
  apply Z.eqb_eq in Hct. by subst.
Qed.

(** C4, as the spec words it, fails: 23 right answers of 160 make 14.375
    percent exactly, which rounds to 14.38 (a tie, going up or to the even
    neighbour alike), but the double (23 / 160) * 100 lies just below 14.375
    and the response carries 14.37. *)
Lemma percentage_not_rounded_quotient :
  ¬ percentage_is_rounded_quotient half_up ∧
  ¬ percentage_is_rounded_quotient half_even.
Proof.
  split; intros H;
    specialize (H (Sample.request Sample.tie) Sample.db
                  Sample.after_tie.1 Sample.after_tie.2
                  "Quiz submitted successfully" Sample.tie_result);
    apply (f_equal Prim2SF) in H;
    [vm_compute in H; discriminate H
    |vm_compute; reflexivity|reflexivity
    |vm_compute in H; discriminate H
    |vm_compute; reflexivity|reflexivity].
Qed.

(** C4 (amended). For every accepted submission of at least one and fewer
    than 160 answers, the percentage of the result is the two-decimal
    number nearest to 100 * score / total_questions, a tie going up. *)
Theorem percentage_rounded_below_160 req db resp db' msg res :
  handle (submitQuiz req) db = (resp, db') →
  json resp = Submitted msg res →
  (1 ≤ QuizResult.total_questions res < 160)%nat →
  QuizResult.percentage res
  = decimal2 (half_up (QuizResult.score res) (QuizResult.total_questions res)).
Proof.
  intros Hrun Hjson. submitted_inv Hrun Hjson. simpl. intros Hlen.
  rewrite rounds_half_up_spec; [done|done|].
  etrans; [apply correct_count_le|].
  rewrite details_matched_length. apply length_filter.
Qed.

Lemma percentage_rounded_below_160_witness :
  QuizResult.percentage Sample.mixed_result
  = decimal2 (half_up (QuizResult.score Sample.mixed_result)
                (QuizResult.total_questions Sample.mixed_result)).
Proof.
  apply (percentage_rounded_below_160 (Sample.request Sample.mixed) Sample.db
           Sample.after_mixed.1 Sample.after_mixed.2
           "Quiz submitted successfully" Sample.mixed_result).
  - vm_compute. reflexivity.
  - reflexivity.
  - vm_compute. lia.
Defined.

(** The sample results: 1 of 3 gives 33.33, 23 of 160 gives 14.37, since
    (23 / 160) * 100 is the double just below 14.375 (100 * 23 / 160 would
    be 14.375 itself, written 14.38). *)
Lemma sample_percentages :
  QuizResult.percentage Sample.mixed_result = decimal2 3333 ∧
  half_up 1 3 = 3333 ∧
  QuizResult.percentage Sample.tie_result = decimal2 1437 ∧
  half_up 23 160 = 1438 ∧ half_even 23 160 = 1438 ∧
  percentage_of 23 160 = PrimFloat.next_down 14.375 ∧
  (100 * 23 / 160)%float = 14.375%float ∧
  JsNumber.toFixed2 14.375 = JsNumber.FixedDigits false 1438.
Proof. repeat split; vm_compute; reflexivity. Qed.

(** ** Where the code parts from the spec *)

(** An authenticated submission of an empty array of answers to a topic
    that exists passes the validation and is answered 200, whatever the
    store: nothing checks the length of [answers], and [0 / 0] is [nan]. *)
Lemma empty_answers_accepted req db u slug topic :
  user req = Some u →
  truthy (topic_slug (body req)) = Some slug →
  answers (body req) = Some [] →
  getTopicBySlug db slug = Some topic →
  ∃ res attempt,
    handle (submitQuiz req) db
    = (mkResponse 200 (Submitted "Quiz submitted successfully" res),
       mkStore (topics db) (questions db) (quiz_attempts db ++ [attempt])
         (user_answers db) (S (uuid_supply db))) ∧
    QuizResult.score res = 0%nat ∧ QuizResult.total_questions res = 0%nat ∧
    PrimFloat.is_nan (QuizResult.percentage res) = true ∧
    QuizResult.grade res = "F" ∧
    QuizAttempt.total_questions attempt = 0%nat ∧
    PrimFloat.is_nan (QuizAttempt.percentage attempt) = true.
Proof.
  intros Hu Hs Ha Ht.
  rewrite (submitQuiz_run req db u slug [] topic Hu Hs Ha Ht).
  unfold submitted. simpl. rewrite app_nil_r, Nat.add_0_r.
  eexists _, _. split; [reflexivity|]. repeat split.
Qed.

(** C1 (the code at the failing input). The sample user submits an empty
    array of answers to the topic javascript: the response is 200 with
    score 0, total_questions 0, a percentage that is not a number and the
    grade F, and an attempt row with total_questions 0 and the same
    percentage has been stored. No 400 is sent. *)
Theorem empty_submission_accepted :
  handle (submitQuiz (Sample.request [])) Sample.db = Sample.after_empty ∧
  status Sample.after_empty.1 = 200 ∧
  (∃ res, json Sample.after_empty.1 = Submitted "Quiz submitted successfully" res ∧
          QuizResult.score res = 0%nat ∧
          QuizResult.total_questions res = 0%nat ∧
          PrimFloat.is_nan (QuizResult.percentage res) = true ∧
          PrimFloat.is_nan (TopicAnalysis.percentage (QuizResult.topic_analysis res)) = true ∧
          QuizResult.grade res = "F") ∧
  (∃ attempt, quiz_attempts Sample.after_empty.2 = [attempt] ∧
              QuizAttempt.total_questions attempt = 0%nat ∧
              PrimFloat.is_nan (QuizAttempt.percentage attempt) = true).
Proof.
  split; [vm_compute; reflexivity|]. split; [reflexivity|]. split.
  - eexists. split; [reflexivity|]. repeat split.
  - eexists. split; [reflexivity|]. repeat split.
Qed.

(** C5 (the code at the failing input). One right answer of three: the
    topic analysis repeats the score and the total, but its percentage is
    the unrounded (1 / 3) * 100 while the result's percentage is 33.33;
    the two numbers differ. *)
Theorem topic_analysis_percentage_unrounded :
  handle (submitQuiz (Sample.request Sample.mixed)) Sample.db = Sample.after_mixed ∧
  json Sample.after_mixed.1 = Submitted "Quiz submitted successfully" Sample.mixed_result ∧
  TopicAnalysis.correct (QuizResult.topic_analysis Sample.mixed_result)
  = QuizResult.score Sample.mixed_result ∧
  TopicAnalysis.total (QuizResult.topic_analysis Sample.mixed_result)
  = QuizResult.total_questions Sample.mixed_result ∧
  TopicAnalysis.percentage (QuizResult.topic_analysis Sample.mixed_result)
  = percentage_of 1 3 ∧
  QuizResult.percentage Sample.mixed_result = decimal2 3333 ∧
  PrimFloat.eqb (TopicAnalysis.percentage (QuizResult.topic_analysis Sample.mixed_result))
    (QuizResult.percentage Sample.mixed_result) = false ∧
  PrimFloat.ltb (QuizResult.percentage Sample.mixed_result)
    (TopicAnalysis.percentage (QuizResult.topic_analysis Sample.mixed_result)) = true.
Proof. repeat split; vm_compute; reflexivity. Qed.

(** In every accepted submission the topic analysis carries the score, the
    total and the percentage as computed, before [toFixed(2)]. *)
Lemma topic_analysis_fields req db resp db' msg res :
  handle (submitQuiz req) db = (resp, db') →
  json resp = Submitted msg res →
  TopicAnalysis.correct (QuizResult.topic_analysis res) = QuizResult.score res ∧
  TopicAnalysis.total (QuizResult.topic_analysis res) = QuizResult.total_questions res ∧
  TopicAnalysis.percentage (QuizResult.topic_analysis res)
  = percentage_of (QuizResult.score res) (QuizResult.total_questions res) ∧
  QuizResult.percentage res
  = JsNumber.parseFloat
      (JsNumber.toFixed2 (TopicAnalysis.percentage (QuizResult.topic_analysis res))).
Proof. intros Hrun Hjson. submitted_inv Hrun Hjson. simpl. done. Qed.

(** * Further properties *)

(** ** The lookup does not depend on the other answers *)

Lemma question_map_snoc (qs : list Question.t) (q : Question.t) :
  question_map (qs ++ [q]) = <[Question.id q := q]> (question_map qs).
Proof. unfold question_map. by rewrite foldl_app. Qed.

Lemma question_map_filter (P : Question.t → Prop) `{!∀ q, Decision (P q)}
    (qs : list Question.t) (k : uuid) :
  (∀ q, q ∈ qs → Question.id q = k → P q) →
  question_map (filter P qs) !! k = question_map qs !! k.
Proof.
  induction qs as [|q' qs IH] using rev_ind; intros Hk; [done|].
  rewrite filter_app, question_map_snoc.
  assert (question_map (filter P qs) !! k = question_map qs !! k) as IH'.
  { apply IH. intros q Hq. apply Hk, elem_of_app. by left. }
  rewrite filter_cons, filter_nil.
  destruct (decide (Question.id q' = k)) as [Heq|Hne].
  - rewrite decide_True by (apply Hk; [apply elem_of_app; right; by left|done]).
    rewrite question_map_snoc, <- Heq. by rewrite !lookup_insert_eq.
  - rewrite lookup_insert_ne by done.
    destruct (decide (P q')).
    + rewrite question_map_snoc, lookup_insert_ne by done. exact IH'.
    + by rewrite app_nil_r.
Qed.

Lemma omap_agree {A B} (f g : A → option B) (l : list A) :
  (∀ x, x ∈ l → f x = g x) → omap f l = omap g l.
Proof.
  induction l as [|x l IH]; intros Hfg; [done|].
  assert (omap f l = omap g l) as IH'.
  { apply IH. intros y Hy. apply Hfg. by right. }
  simpl. rewrite (Hfg x) by (by left).
  destruct (g x); [f_equal|]; exact IH'.
Qed.

(** The detail of an answer is read off the questions of the store: the
    other answers of the submission play no part. *)
Lemma details_standalone (db : Store) (ans : list Answer.t) :
  omap (detail_of (lookup_for db ans)) ans
  = omap (detail_of (question_map (questions db))) ans.
Proof.
  apply omap_agree. intros a Ha. unfold detail_of, lookup_for, getQuestionsByIds.
  rewrite question_map_filter; [done|].
  intros q _ ->. by apply list_elem_of_fmap_2.
Qed.

(** ** How the score is made up *)

(** What an accepted submission answers, with the details read off the
    questions of the store. *)
Lemma submitQuiz_result req db resp db' msg res :
  handle (submitQuiz req) db = (resp, db') →
  json resp = Submitted msg res →
  ∃ ans, answers (body req) = Some ans ∧
    msg = "Quiz submitted successfully" ∧
    QuizResult.answers res = omap (detail_of (question_map (questions db))) ans ∧
    QuizResult.score res = correct_count (QuizResult.answers res) ∧
    QuizResult.total_questions res = length ans ∧
    QuizResult.percentage res
    = JsNumber.parseFloat
        (JsNumber.toFixed2
           (percentage_of (QuizResult.score res) (QuizResult.total_questions res))) ∧
    QuizResult.grade res
    = (grade_of (percentage_of (QuizResult.score res) (QuizResult.total_questions res))).1 ∧
    QuizResult.feedback res
    = (grade_of (percentage_of (QuizResult.score res) (QuizResult.total_questions res))).2.
Proof.
  intros Hrun Hjson. submitted_inv Hrun Hjson.
  exists ans. simpl. rewrite details_standalone. done.
Qed.

(** A request is accepted as soon as it is authenticated, names a topic
    that exists and carries an array of answers. *)
Lemma submitQuiz_accepts req db u slug ans topic :
  user req = Some u →
  truthy (topic_slug (body req)) = Some slug →
  answers (body req) = Some ans →
  getTopicBySlug db slug = Some topic →
  ∃ res db',
    handle (submitQuiz req) db
    = (mkResponse 200 (Submitted "Quiz submitted successfully" res), db').
Proof.
  intros Hu Hs Ha Ht. rewrite (submitQuiz_run req db u slug ans topic Hu Hs Ha Ht).
  unfold submitted. eauto.
Qed.

(** What an accepted request was: authenticated, for a topic that exists,
    with an array of answers. *)
Lemma submitQuiz_accepted req db resp db' msg res :
  handle (submitQuiz req) db = (resp, db') →
  json resp = Submitted msg res →
  ∃ u slug ans topic,
    user req = Some u ∧ truthy (topic_slug (body req)) = Some slug ∧
    answers (body req) = Some ans ∧ getTopicBySlug db slug = Some topic.
Proof.
  intros Hrun Hjson.
  destruct (submitQuiz_inv _ _ _ _ _ _ Hrun Hjson)
    as (u & slug & ans & topic & ? & ? & ? & ? & _).
  eauto 10.
Qed.

(** X1. Scores add up: an accepted submission of the answers [l1 ++ l2] scores
    what the submissions of [l1] and of [l2] score together, detail by
    detail; nothing looks for a question answered before, so a right
    answer given twice counts twice. *)
Theorem score_adds_up req db l1 l2 resp db' msg res :
  answers (body req) = Some (l1 ++ l2) →
  handle (submitQuiz req) db = (resp, db') →
  json resp = Submitted msg res →
  ∃ resp1 db1 res1 resp2 db2 res2,
    handle (submitQuiz (with_answers req l1)) db = (resp1, db1) ∧
    json resp1 = Submitted msg res1 ∧
    handle (submitQuiz (with_answers req l2)) db = (resp2, db2) ∧
    json resp2 = Submitted msg res2 ∧
    QuizResult.score res = (QuizResult.score res1 + QuizResult.score res2)%nat ∧
    QuizResult.answers res = QuizResult.answers res1 ++ QuizResult.answers res2 ∧
    QuizResult.total_questions res
    = (QuizResult.total_questions res1 + QuizResult.total_questions res2)%nat.
Proof.
  intros Hans Hrun Hjson.
  destruct (submitQuiz_accepted _ _ _ _ _ _ Hrun Hjson)
    as (u & slug & ans & topic & Hu & Hs & Ha & Ht).
  destruct (submitQuiz_result _ _ _ _ _ _ Hrun Hjson)
    as (ans' & Ha' & -> & Hd & Hsc & Htot & _).
  rewrite Hans in Ha'. injection Ha' as <-.
  destruct (submitQuiz_accepts (with_answers req l1) db u slug l1 topic)
    as (res1 & db1 & Hrun1); try done.
  destruct (submitQuiz_accepts (with_answers req l2) db u slug l2 topic)
    as (res2 & db2 & Hrun2); try done.
  destruct (submitQuiz_result _ _ _ _ _ _ Hrun1 eq_refl)
    as (? & [= <-] & _ & Hd1 & Hsc1 & Htot1 & _).
  destruct (submitQuiz_result _ _ _ _ _ _ Hrun2 eq_refl)
    as (? & [= <-] & _ & Hd2 & Hsc2 & Htot2 & _).
  eexists _, db1, res1, _, db2, res2.
  split; [exact Hrun1|]. split; [done|]. split; [exact Hrun2|]. split; [done|].
  rewrite Hsc, Hsc1, Hsc2, Hd, Hd1, Hd2, Htot, Htot1, Htot2.
  rewrite omap_app, correct_count_app, length_app. done.
Qed.

Lemma score_adds_up_witness :
  ∃ resp1 db1 res1 resp2 db2 res2,
    handle (submitQuiz
              (with_answers (Sample.request Sample2.twice) [Answer.mk "q-push" 1 None]))
      Sample.db = (resp1, db1) ∧
    json resp1 = Submitted "Quiz submitted successfully" res1 ∧
    handle (submitQuiz
              (with_answers (Sample.request Sample2.twice) [Answer.mk "q-push" 1 None]))
      Sample.db = (resp2, db2) ∧
    json resp2 = Submitted "Quiz submitted successfully" res2 ∧
    QuizResult.score (Sample.result_in Sample2.after_twice.1)
    = (QuizResult.score res1 + QuizResult.score res2)%nat ∧
    QuizResult.answers (Sample.result_in Sample2.after_twice.1)
    = QuizResult.answers res1 ++ QuizResult.answers res2 ∧
    QuizResult.total_questions (Sample.result_in Sample2.after_twice.1)
    = (QuizResult.total_questions res1 + QuizResult.total_questions res2)%nat.
Proof.
  apply (score_adds_up (Sample.request Sample2.twice) Sample.db
           [Answer.mk "q-push" 1 None] [Answer.mk "q-push" 1 None]
           Sample2.after_twice.1 Sample2.after_twice.2).
  - reflexivity.
  - vm_compute. reflexivity.
  - reflexivity.
Defined.

(** The sample: one question, answered right twice, scores 2 of 2. *)
Lemma sample_twice :
  QuizResult.score (Sample.result_in Sample2.after_twice.1) = 2%nat ∧
  QuizResult.total_questions (Sample.result_in Sample2.after_twice.1) = 2%nat ∧
  QuizResult.grade (Sample.result_in Sample2.after_twice.1) = "A+".
Proof. repeat split. Qed.

(** X2. The topic of a submission plays no part in its scoring: the same
    answers submitted for another topic that exists get the same score,
    total, percentage, grade, feedback and details; an answer to a
    question of any topic is scored. *)
Theorem score_ignores_topic req db slug' resp db1 msg res resp' db2 msg' res' :
  handle (submitQuiz req) db = (resp, db1) →
  json resp = Submitted msg res →
  handle (submitQuiz (with_slug req slug')) db = (resp', db2) →
  json resp' = Submitted msg' res' →
  QuizResult.score res' = QuizResult.score res ∧
  QuizResult.total_questions res' = QuizResult.total_questions res ∧
  QuizResult.percentage res' = QuizResult.percentage res ∧
  QuizResult.grade res' = QuizResult.grade res ∧
  QuizResult.feedback res' = QuizResult.feedback res ∧
  QuizResult.answers res' = QuizResult.answers res.
Proof.
  intros Hrun Hjson Hrun' Hjson'.
  destruct (submitQuiz_result _ _ _ _ _ _ Hrun Hjson)
    as (ans & Ha & _ & Hd & Hsc & Htot & Hp & Hg & Hf).
  destruct (submitQuiz_result _ _ _ _ _ _ Hrun' Hjson')
    as (ans' & Ha' & _ & Hd' & Hsc' & Htot' & Hp' & Hg' & Hf').
  simpl in Ha'. rewrite Ha in Ha'. injection Ha' as <-.
  assert (QuizResult.answers res' = QuizResult.answers res) as Hda by congruence.
  assert (QuizResult.score res' = QuizResult.score res) as Hs by congruence.
  assert (QuizResult.total_questions res' = QuizResult.total_questions res) as Ht
    by congruence.
  rewrite Hp', Hg', Hf', Hp, Hg, Hf, Hs, Ht. done.
Qed.

Lemma score_ignores_topic_witness :
  QuizResult.score (Sample.result_in Sample2.after_foreign_aptitude.1)
  = QuizResult.score (Sample.result_in Sample2.after_foreign.1) ∧
  QuizResult.total_questions (Sample.result_in Sample2.after_foreign_aptitude.1)
  = QuizResult.total_questions (Sample.result_in Sample2.after_foreign.1) ∧
  QuizResult.percentage (Sample.result_in Sample2.after_foreign_aptitude.1)
  = QuizResult.percentage (Sample.result_in Sample2.after_foreign.1) ∧
  QuizResult.grade (Sample.result_in Sample2.after_foreign_aptitude.1)
  = QuizResult.grade (Sample.result_in Sample2.after_foreign.1) ∧
  QuizResult.feedback (Sample.result_in Sample2.after_foreign_aptitude.1)
  = QuizResult.feedback (Sample.result_in Sample2.after_foreign.1) ∧
  QuizResult.answers (Sample.result_in Sample2.after_foreign_aptitude.1)
  = QuizResult.answers (Sample.result_in Sample2.after_foreign.1).
Proof.
  apply (score_ignores_topic (Sample.request Sample2.foreign) Sample.db
           (Some "aptitude") Sample2.after_foreign.1 Sample2.after_foreign.2
           "Quiz submitted successfully" _
           Sample2.after_foreign_aptitude.1 Sample2.after_foreign_aptitude.2
           "Quiz submitted successfully").
  - vm_compute. reflexivity.
  - reflexivity.
  - vm_compute. reflexivity.
  - reflexivity.
Defined.

(** The sample: the aptitude question counts under the topic javascript. *)
Lemma sample_foreign :
  QuizResult.score (Sample.result_in Sample2.after_foreign.1) = 1%nat ∧
  TopicAnalysis.topic (QuizResult.topic_analysis (Sample.result_in Sample2.after_foreign.1))
  = "JavaScript" ∧
  Detail.question_id <$> QuizResult.answers (Sample.result_in Sample2.after_foreign.1)
  = ["q-train"].
Proof. repeat split. Qed.

(** ** Refusals *)

Lemma getTopicBySlug_Some (db : Store) (slug : string) (t : Topic.t) :
  getTopicBySlug db slug = Some t →
  ∃ t0, t0 ∈ topics db ∧ Topic.slug t0 = slug ∧ Topic.is_active t0 = true ∧
        Topic.id t = Topic.id t0 ∧ Topic.name t = Topic.name t0 ∧
        Topic.slug t = Topic.slug t0 ∧ Topic.is_active t = true ∧
        Topic.question_count t
        = Some (length (filter (fun q => Question.topic_id q = Topic.id t0) (questions db))).
Proof.
  unfold getTopicBySlug. intros Hhead.
  destruct (filter _ (topics db)) as [|t0 l] eqn:Hf; [discriminate|].
  simpl in Hhead. injection Hhead as <-.
  assert (t0 ∈ filter (fun t => Topic.slug t = slug ∧ Topic.is_active t = true) (topics db))
    as [Hp Ht0]%list_elem_of_filter by (rewrite Hf; by left).
  destruct Hp as [Hslug Hact]. exists t0. simpl. done.
Qed.

Lemma getTopicBySlug_None (db : Store) (slug : string) :
  getTopicBySlug db slug = None ↔
  ∀ t, t ∈ topics db → Topic.slug t = slug → Topic.is_active t = false.
Proof.
  unfold getTopicBySlug. split.
  - intros Hhead t Ht Hslug.
    destruct (filter _ (topics db)) as [|t0 l] eqn:Hf; [|discriminate].
    destruct (Topic.is_active t) eqn:Hact; [|done].
    assert (t ∈ filter (fun t => Topic.slug t = slug ∧ Topic.is_active t = true) (topics db))
      as Hin by (by apply list_elem_of_filter).
    rewrite Hf in Hin. by apply elem_of_nil in Hin.
  - intros Hnone.
    destruct (filter _ (topics db)) as [|t0 l] eqn:Hf; [done|].
    assert (t0 ∈ filter (fun t => Topic.slug t = slug ∧ Topic.is_active t = true) (topics db))
      as [[Hslug Hact] Ht0]%list_elem_of_filter by (rewrite Hf; by left).
    rewrite (Hnone t0 Ht0 Hslug) in Hact. discriminate.
Qed.





(** ** What a submission keeps of the store *)






Lemma sample_store_consistent : store_consistent Sample.db.
Proof.
  constructor; simpl; try (intros x Hx; by apply elem_of_nil in Hx).
  apply NoDup_nil_2.
Qed.


(** ** Grades follow the percentage *)

Lemma SFleb_trans (x y z : spec_float) :
  SFleb x y = true → SFleb y z = true → SFleb x z = true.
Proof.
  unfold SFleb.
  destruct x as [sx|sx| |sx mx ex], y as [sy|sy| |sy my ey],
    z as [sz|sz| |sz mz ez]; simpl;
    try discriminate; try reflexivity;
    repeat match goal with
      | s : bool |- _ => destruct s
      end; simpl; try discriminate; try reflexivity.
  all: rewrite !Pos.compare_cont_spec.
  all: destruct (Z.compare_spec ex ey), (Z.compare_spec ey ez),
         (Z.compare_spec ex ez); simpl;
       try discriminate; try reflexivity; try (exfalso; lia).
  all: destruct (Pos.compare_spec mx my), (Pos.compare_spec my mz),
         (Pos.compare_spec mx mz); simpl;
       try discriminate; try reflexivity; try (exfalso; lia).
Qed.

(** A mark reached by [p] is reached by every [q] that [p] is at most. *)
Lemma geb_mono (p q mark : float) :
  PrimFloat.leb p q = true → JsNumber.geb p mark = true → JsNumber.geb q mark = true.
Proof.
  unfold JsNumber.geb. rewrite !leb_spec. intros Hpq Hm.
  by apply (SFleb_trans _ (Prim2SF p)).
Qed.

(** X5. A higher percentage never gets a lower grade: for numbers [p <= q],
    the grade of [q] is the grade of [p] or a better one. *)
Theorem grade_monotone (p q : float) :
  PrimFloat.leb p q = true →
  (grade_rank (grade_of p).1 ≤ grade_rank (grade_of q).1)%nat.
Proof.
  intros Hpq. unfold grade_of.
  destruct (JsNumber.geb q 90) eqn:Q90.
  { repeat (destruct (JsNumber.geb p _)); simpl; vm_compute; lia. }
  destruct (JsNumber.geb p 90) eqn:P90;
    [rewrite (geb_mono p q 90 Hpq P90) in Q90; discriminate|].
  destruct (JsNumber.geb q 80) eqn:Q80.
  { repeat (destruct (JsNumber.geb p _)); simpl; vm_compute; lia. }
  destruct (JsNumber.geb p 80) eqn:P80;
    [rewrite (geb_mono p q 80 Hpq P80) in Q80; discriminate|].
  destruct (JsNumber.geb q 70) eqn:Q70.
  { repeat (destruct (JsNumber.geb p _)); simpl; vm_compute; lia. }
  destruct (JsNumber.geb p 70) eqn:P70;
    [rewrite (geb_mono p q 70 Hpq P70) in Q70; discriminate|].
  destruct (JsNumber.geb q 60) eqn:Q60.
  { repeat (destruct (JsNumber.geb p _)); simpl; vm_compute; lia. }
  destruct (JsNumber.geb p 60) eqn:P60;
    [rewrite (geb_mono p q 60 Hpq P60) in Q60; discriminate|].
  destruct (JsNumber.geb q 50) eqn:Q50.
  { repeat (destruct (JsNumber.geb p _)); simpl; vm_compute; lia. }
  destruct (JsNumber.geb p 50) eqn:P50;
    [rewrite (geb_mono p q 50 Hpq P50) in Q50; discriminate|].
  destruct (JsNumber.geb q 40) eqn:Q40.
  { repeat (destruct (JsNumber.geb p _)); simpl; vm_compute; lia. }
  destruct (JsNumber.geb p 40) eqn:P40;
    [rewrite (geb_mono p q 40 Hpq P40) in Q40; discriminate|].
  simpl. lia.
Qed.

Lemma grade_monotone_witness :
  (grade_rank (grade_of 59.5).1 ≤ grade_rank (grade_of 60).1)%nat.
Proof. apply grade_monotone. reflexivity. Defined.

(** ** Perfect and empty scores *)

Lemma extreme_percentages_table : extreme_percentages_below 1001 = true.
Proof. vm_compute. reflexivity. Qed.

Lemma extreme_percentages_below_spec (bound n : nat) :
  extreme_percentages_below bound = true →
  (1 ≤ n < bound)%nat →
  percentage_of n n = 100%float ∧ percentage_of 0 n = 0%float.
Proof.
  unfold extreme_percentages_below. rewrite forallb_forall. intros Htable Hn.
  specialize (Htable n ltac:(apply in_seq; lia)).
  apply andb_prop in Htable as [H100 H0].
  by apply FloatAxioms.Leibniz.eqb_spec in H100, H0.
Qed.

Lemma extreme_percentages (n : nat) :
  (1 ≤ n ≤ 1000)%nat → percentage_of n n = 100%float ∧ percentage_of 0 n = 0%float.
Proof.
  intros Hn. apply (extreme_percentages_below_spec 1001 n extreme_percentages_table).
  lia.
Qed.

(** X6. An accepted submission of 1 to 1000 answers that are all right (the
    score is the total) has percentage 100, in the result and in the topic
    analysis, and grade A+; one with no right answer has percentage 0 and
    grade F. *)
Theorem perfect_and_empty_scores req db resp db' msg res :
  handle (submitQuiz req) db = (resp, db') →
  json resp = Submitted msg res →
  (1 ≤ QuizResult.total_questions res ≤ 1000)%nat →
  (QuizResult.score res = QuizResult.total_questions res →
   QuizResult.percentage res = 100%float ∧
   TopicAnalysis.percentage (QuizResult.topic_analysis res) = 100%float ∧
   QuizResult.grade res = "A+") ∧
  (QuizResult.score res = 0%nat →
   QuizResult.percentage res = 0%float ∧
   TopicAnalysis.percentage (QuizResult.topic_analysis res) = 0%float ∧
   QuizResult.grade res = "F").
Proof.
  intros Hrun Hjson Hn.
  destruct (submitQuiz_result _ _ _ _ _ _ Hrun Hjson)
    as (ans & _ & _ & _ & _ & _ & Hp & Hg & _).
  destruct (topic_analysis_fields _ _ _ _ _ _ Hrun Hjson) as (_ & _ & Hta & _).
  destruct (extreme_percentages _ Hn) as [H100 H0].
  split; intros Hs; rewrite Hp, Hta, Hg, Hs.
  - rewrite H100. done.
  - rewrite H0. done.
Qed.

Lemma perfect_and_empty_scores_witness :
  QuizResult.percentage (Sample.result_in Sample2.after_perfect.1) = 100%float ∧
  TopicAnalysis.percentage
    (QuizResult.topic_analysis (Sample.result_in Sample2.after_perfect.1)) = 100%float ∧
  QuizResult.grade (Sample.result_in Sample2.after_perfect.1) = "A+".
Proof.
  apply (perfect_and_empty_scores (Sample.request Sample2.perfect) Sample.db
           Sample2.after_perfect.1 Sample2.after_perfect.2
           "Quiz submitted successfully").
  - vm_compute. reflexivity.
  - reflexivity.
  - vm_compute. lia.
  - reflexivity.
Defined.

(** ** The questions a quiz is started with *)

Lemma insert_by_key_fmap {A B} (f : A → B) (x : N * A) (l : list (N * A)) :
  insert_by_key (prod_map id f x) (prod_map id f <$> l)
  = prod_map id f <$> insert_by_key x l.
Proof.
  induction l as [|y l IH]; [done|].
  destruct x as [k a], y as [k' a']. simpl.
  destruct (k <=? k')%N; [done|].
  rewrite fmap_cons. simpl. f_equal. exact IH.
Qed.

Lemma sort_by_key_fmap {A B} (f : A → B) (l : list (N * A)) :
  foldr insert_by_key [] (prod_map id f <$> l)
  = prod_map id f <$> foldr insert_by_key [] l.
Proof.
  induction l as [|x l IH]; [done|].
  change (foldr insert_by_key [] (prod_map id f <$> x :: l))
    with (insert_by_key (prod_map id f x)
            (foldr insert_by_key [] (prod_map id f <$> l))).
  rewrite IH. apply insert_by_key_fmap.
Qed.

(** The random order looks at the drawn numbers only, not at the rows. *)
Lemma order_by_random_fmap {A B} (f : A → B) (rand : list N) (rows : list A) :
  order_by_random rand (f <$> rows) = f <$> order_by_random rand rows.
Proof.
  unfold order_by_random.
  rewrite imap_fmap.
  assert (imap (fun i => (fun r => (default 0%N (rand !! i), r)) ∘ f) rows
          = prod_map id f <$> imap (fun i r => (default 0%N (rand !! i), r)) rows) as ->.
  { rewrite fmap_imap. by apply imap_ext. }
  rewrite sort_by_key_fmap, <- !list_fmap_compose. by apply list_fmap_ext.
Qed.

(** The rows returned are the projections of the first questions of a
    rearrangement of the questions asked for. *)
Lemma getQuestionsForQuiz_inr (db : Store) rand topicId limit difficulty rows :
  getQuestionsForQuiz db rand topicId limit difficulty = inr rows →
  ∃ qs, qs ≡ₚ questions_of db topicId difficulty ∧
        0 ≤ default 10 limit ∧
        rows = (select ["id"; "question"; "options"; "difficulty"] ∘ question_columns)
                 <$> take (Z.to_nat (default 10 limit)) qs.
Proof.
  unfold getQuestionsForQuiz.
  fold (questions_of db topicId difficulty).
  rewrite order_by_random_fmap. unfold limit_rows.
  destruct (Z.ltb_spec (default 10 limit) 0); [discriminate|].
  intros [= <-]. eexists. split; [apply order_by_random_perm|].
  split; [done|]. by rewrite fmap_take.
Qed.

Lemma issued_ids_select (qs : list Question.t) :
  issued_ids ((select ["id"; "question"; "options"; "difficulty"] ∘ question_columns) <$> qs)
  = Question.id <$> qs.
Proof.
  unfold issued_ids. induction qs as [|q qs IH]; [done|].
  simpl. f_equal. exact IH.
Qed.

Lemma questions_of_sublist (db : Store) topicId difficulty :
  questions_of db topicId difficulty `sublist_of` questions db.
Proof. unfold questions_of. destruct (truthy difficulty); apply sublist_filter. Qed.

Lemma submseteq_NoDup_fmap {A B} (f : A → B) (l k : list A) :
  l ⊆+ k → NoDup (f <$> k) → NoDup (f <$> l).
Proof.
  intros (k' & Hk)%submseteq_Permutation. rewrite Hk, fmap_app.
  by intros [? _]%NoDup_app.
Qed.

(** X7. [getQuestionsForQuiz] hands out as many questions as the limit allows
    and the topic has: exactly [min limit n] rows where [n] questions
    qualify, all of them (each once, whatever the draw) when the limit is
    at least [n]; the identities issued are identities of qualifying
    questions, none more often than it is stored, so none twice when the
    identities of the stored questions are distinct. *)
Theorem quiz_questions_count (db : Store) rand topicId limit difficulty rows :
  getQuestionsForQuiz db rand topicId limit difficulty = inr rows →
  length rows
  = Nat.min (Z.to_nat (default 10 limit)) (length (questions_of db topicId difficulty)) ∧
  issued_ids rows ⊆+ Question.id <$> questions_of db topicId difficulty ∧
  (Z.of_nat (length (questions_of db topicId difficulty)) ≤ default 10 limit →
   issued_ids rows ≡ₚ Question.id <$> questions_of db topicId difficulty) ∧
  (NoDup (Question.id <$> questions db) → NoDup (issued_ids rows)).
Proof.
  intros (qs & Hperm & Hlim & ->)%getQuestionsForQuiz_inr.
  rewrite issued_ids_select, length_fmap, length_take.
  assert (take (Z.to_nat (default 10 limit)) qs ⊆+ questions_of db topicId difficulty)
    as Hsub by (rewrite <- Hperm; apply submseteq_take).
  split_and!.
  - by rewrite Hperm.
  - by apply fmap_submseteq.
  - intros Hall. rewrite take_ge; [by rewrite Hperm|].
    rewrite Hperm. lia.
  - apply submseteq_NoDup_fmap. etrans; [exact Hsub|].
    apply sublist_submseteq, questions_of_sublist.
Qed.

Lemma quiz_questions_count_witness :
  ∃ rows,
    getQuestionsForQuiz Sample.db [5; 1; 3]%N "t-js" (Some 2) None = inr rows ∧
    length rows = 2%nat ∧
    NoDup (issued_ids rows).
Proof.
  exists [ [ ("id", VString "q-destructuring");
             ("question",
              VString "Which ES6 feature allows you to extract values from arrays or objects?");
             ("options",
              VArray ["Spread operator"; "Destructuring"; "Template literals";
                      "Arrow functions"]);
             ("difficulty", VString "easy") ];
           [ ("id", VString "q-tdz");
             ("question", VString "What is the temporal dead zone in JavaScript?");
             ("options",
              VArray ["A deprecated feature";
                      "Time between variable creation and initialization";
                      "A type of memory leak"; "A debugging tool"]);
             ("difficulty", VString "hard") ] ].
  assert (getQuestionsForQuiz Sample.db [5; 1; 3]%N "t-js" (Some 2) None = inr _) as Hrun
    by (vm_compute; reflexivity).
  split; [exact Hrun|].
  destruct (quiz_questions_count _ _ _ _ _ _ Hrun) as (Hlen & _ & _ & Hnd).
  split; [exact Hlen|]. apply Hnd. vm_compute.
  repeat (apply NoDup_cons; split;
          [intros H; repeat (apply elem_of_cons in H as [H|H]; [discriminate H|]);
           by apply elem_of_nil in H|]).
  apply NoDup_nil_2.
Defined.

(** ** Starting a quiz *)

Lemma select_for_quiz_keys (q : Question.t) :
  let r := (select ["id"; "question"; "options"; "difficulty"] ∘ question_columns) q in
  r.*1 = ["id"; "question"; "options"; "difficulty"] ∧
  column "correct_answer" r = None ∧ column "explanation" r = None.
Proof. done. Qed.

(** X8. What [startQuiz] answers. No active topic with the slug: 404. A topic
    and a negative limit: 500 with the message of the store, even when the
    topic has no question. A topic without questions: 404. Otherwise 200
    with the summary of the topic, [min limit n] rows of its [n] questions
    (at least one; a limit that is missing, not a number or 0 counts as
    10), each row with the four columns id, question, options and
    difficulty only, that number as total_questions and 30 seconds per
    question. The limit is one the store reads as a bigint. *)
Theorem start_quiz_outcomes (topicSlug : string) (parsed_limit : option Z)
    (rand : list N) (db : Store) :
  ((∀ t, t ∈ topics db → Topic.slug t = topicSlug → Topic.is_active t = false) →
   startQuiz topicSlug parsed_limit rand db
   = mkStartResponse 404 (StartFailure "Topic not found" None)) ∧
  (∀ topic, getTopicBySlug db topicSlug = Some topic →
     (limit_or_10 parsed_limit < 0 →
      startQuiz topicSlug parsed_limit rand db
      = mkStartResponse 500
          (StartFailure "Failed to start quiz" (Some "LIMIT must not be negative"))) ∧
     (0 ≤ limit_or_10 parsed_limit < 2 ^ 63 →
      questions_of db (Topic.id topic) None = [] →
      startQuiz topicSlug parsed_limit rand db
      = mkStartResponse 404 (StartFailure "No questions available for this topic" None)) ∧
     (0 ≤ limit_or_10 parsed_limit < 2 ^ 63 →
      questions_of db (Topic.id topic) None ≠ [] →
      ∃ rows,
        startQuiz topicSlug parsed_limit rand db
        = mkStartResponse 200
            (Started
               (TopicSummary.mk (Topic.id topic) (Topic.name topic) topicSlug
                  (Topic.description topic) (Topic.icon topic))
               rows (length rows) 30) ∧
        length rows
        = Nat.min (Z.to_nat (limit_or_10 parsed_limit))
            (length (questions_of db (Topic.id topic) None)) ∧
        (1 ≤ length rows)%nat ∧
        issued_ids rows ⊆+ Question.id <$> questions_of db (Topic.id topic) None ∧
        ∀ r, r ∈ rows →
             r.*1 = ["id"; "question"; "options"; "difficulty"] ∧
             column "correct_answer" r = None ∧ column "explanation" r = None)).
Proof.
  split.
  { intros Hnone%getTopicBySlug_None. unfold startQuiz. by rewrite Hnone. }
  intros topic Htopic. unfold startQuiz. rewrite Htopic.
  assert (limit_or_10 parsed_limit ≠ 0) as Hnz.
  { unfold limit_or_10. destruct parsed_limit as [[| |]|]; done. }
  split_and!.
  - intros Hneg. unfold getQuestionsForQuiz, limit_rows. simpl.
    destruct (Z.ltb_spec (limit_or_10 parsed_limit) 0); [done|lia].
  - intros [Hpos _] Hempty.
    destruct (getQuestionsForQuiz db rand (Topic.id topic)
                (Some (limit_or_10 parsed_limit)) None) as [e|rows] eqn:Hq.
    { unfold getQuestionsForQuiz, limit_rows in Hq. simpl in Hq.
      destruct (Z.ltb_spec (limit_or_10 parsed_limit) 0); [lia|discriminate]. }
    apply getQuestionsForQuiz_inr in Hq as (qs & Hperm & _ & ->).
    rewrite Hempty in Hperm. apply Permutation_nil_r in Hperm. subst qs.
    by rewrite take_nil.
  - intros [Hpos _] Hsome.
    destruct (getQuestionsForQuiz db rand (Topic.id topic)
                (Some (limit_or_10 parsed_limit)) None) as [e|rows] eqn:Hq.
    { unfold getQuestionsForQuiz, limit_rows in Hq. simpl in Hq.
      destruct (Z.ltb_spec (limit_or_10 parsed_limit) 0); [lia|discriminate]. }
    pose proof Hq as (qs & Hperm & _ & Hrows)%getQuestionsForQuiz_inr.
    simpl in Hrows.
    assert (length rows
            = Nat.min (Z.to_nat (limit_or_10 parsed_limit))
                (length (questions_of db (Topic.id topic) None))) as Hlen.
    { rewrite Hrows, length_fmap, length_take. by rewrite Hperm. }
    assert (1 ≤ length rows)%nat as Hone.
    { rewrite Hlen.
      destruct (questions_of db (Topic.id topic) None); [done|]. simpl. lia. }
    exists rows. rewrite decide_False by lia.
    apply getTopicBySlug_Some in Htopic as (t0 & _ & Hslug & _ & _ & _ & Hs & _).
    split_and!; try done.
    + do 3 f_equal. destruct topic. simpl in *. congruence.
    + rewrite Hrows, issued_ids_select. apply fmap_submseteq.
      rewrite <- Hperm. apply submseteq_take.
    + intros r. rewrite Hrows. intros (q & -> & _)%list_elem_of_fmap.
      apply select_for_quiz_keys.
Qed.

Lemma start_quiz_outcomes_witness :
  startQuiz "cobol" None [] Sample.db
  = mkStartResponse 404 (StartFailure "Topic not found" None) ∧
  startQuiz "javascript" (Some (-3)) [] Sample.db
  = mkStartResponse 500
      (StartFailure "Failed to start quiz" (Some "LIMIT must not be negative")) ∧
  ∃ rows,
    startQuiz "javascript" (Some 0) [] Sample.db
    = mkStartResponse 200
        (Started
           (TopicSummary.mk "t-js" "JavaScript" "javascript"
              "Test your JavaScript fundamentals and ES6+ features" "js")
           rows (length rows) 30) ∧
    length rows = 3%nat.
Proof.
  destruct (start_quiz_outcomes "cobol" None [] Sample.db) as [Hnone _].
  destruct (start_quiz_outcomes "javascript" (Some (-3)) [] Sample.db) as [_ Hneg].
  destruct (start_quiz_outcomes "javascript" (Some 0) [] Sample.db) as [_ Hzero].
  split_and!.
  - apply Hnone. intros t Ht Hslug. exfalso. vm_compute in Ht.
    repeat (apply elem_of_cons in Ht as [->|Ht]; [discriminate Hslug|]).
    by apply elem_of_nil in Ht.
  - eapply Hneg; [vm_compute; reflexivity|simpl; lia].
  - destruct (Hzero _ ltac:(vm_compute; reflexivity)) as (_ & _ & Hok).
    destruct Hok as (rows & Hrun & Hlen & _); [simpl; lia|vm_compute; discriminate|].
    exists rows. split; [exact Hrun|]. rewrite Hlen. vm_compute. reflexivity.
Defined.

(** ** From the start of a quiz to its submission *)






(** ** The middleware and the route it guards *)

Lemma prefix_app (s1 s2 : string) :
  String.prefix s1 s2 = true ↔ ∃ t, s2 = (s1 ++ t)%string.
Proof.
  revert s2. induction s1 as [|c s1 IH]; intros s2.
  - split; [intros _; by exists s2|]. intros _. by destruct s2.
  - destruct s2 as [|c' s2]; simpl.
    + split; [discriminate|]. intros [t Ht]. discriminate.
    + destruct (Ascii.ascii_dec c c') as [->|Hne].
      * rewrite IH. split; intros [t Ht]; exists t.
        -- simpl. by rewrite Ht.
        -- simpl in Ht. by injection Ht.
      * split; [discriminate|]. intros [t Ht]. simpl in Ht. by injection Ht.
Qed.

Lemma substring_all (s : string) : String.substring 0 (String.length s) s = s.
Proof. induction s as [|c s IH]; [done|]. simpl. by rewrite IH. Qed.

Lemma substring_7_Bearer (token : string) :
  substring_7 ("Bearer " ++ token) = token.
Proof. unfold substring_7. simpl. rewrite Nat.sub_0_r. apply substring_all. Qed.

Lemma truthy_Some (s : option string) (h : string) :
  truthy s = Some h ↔ s = Some h ∧ h ≠ "".
Proof.
  destruct s as [[|c s]|]; simpl; split; try done.
  - by intros [[= <-] ?].
  - intros [= <-]. done.
  - by intros [-> _].
  - by intros [? _].
Qed.

(** What [authenticate] does with a header the user of which it can
    read. *)
Lemma authenticate_Bearer jwt_verify (token : string) :
  token ≠ "" →
  authenticate jwt_verify (Some ("Bearer " ++ token)%string)
  = match jwt_verify token with
    | JwtPayload p => inr p
    | JwtTokenExpired => inl (mkResponse 401 (Failure "Token expired. Please login again."))
    | JwtWebTokenError => inl (mkResponse 401 (Failure "Invalid token. Please login again."))
    | JwtOtherError => inl (mkResponse 401 (Failure "Authentication failed."))
    end.
Proof.
  intros Hne. unfold authenticate.
  change (truthy (Some ("Bearer " ++ token)%string)) with (Some ("Bearer " ++ token)%string).
  cbv beta iota.
  assert (startsWith_Bearer ("Bearer " ++ token) = true) as ->
    by (apply prefix_app; by exists token).
  cbn [negb]. rewrite substring_7_Bearer.
  destruct token as [|c token]; [done|].
  unfold verifyToken. by destruct (jwt_verify _).
Qed.

Lemma authenticate_inr jwt_verify authorization p :
  authenticate jwt_verify authorization = inr p ↔
  ∃ token, authorization = Some ("Bearer " ++ token)%string ∧ token ≠ "" ∧
           jwt_verify token = JwtPayload p.
Proof.
  split.
  - unfold authenticate.
    destruct (truthy authorization) as [h|] eqn:Hh; [|discriminate].
    apply truthy_Some in Hh as [-> _].
    destruct (startsWith_Bearer h) eqn:Hb; [|discriminate].
    apply prefix_app in Hb as [token ->].
    cbn [negb]. rewrite substring_7_Bearer.
    destruct token as [|c token]; [discriminate|].
    unfold verifyToken. destruct (jwt_verify _) eqn:Hv; try discriminate.
    intros [= ->]. eexists. done.
  - intros (token & -> & Hne & Hv). by rewrite authenticate_Bearer, Hv.
Qed.

(** What [authenticate] answers when it stops a request. *)
Lemma authenticate_inl jwt_verify (authorization : option string) r :
  authenticate jwt_verify authorization = inl r →
      status r = 401 ∧
      ∃ m, json r = Failure m ∧ m ≠ "Invalid or expired token" ∧
        ((m = "No authorization token provided" ∧
          (authorization = None ∨ authorization = Some "")) ∨
         (m = "Invalid authorization format. Use: Bearer <token>" ∧
          ∃ h, authorization = Some h ∧ h ≠ "" ∧ startsWith_Bearer h = false) ∨
         (m = "Token is empty" ∧ authorization = Some "Bearer ") ∨
         (∃ token, authorization = Some ("Bearer " ++ token)%string ∧ token ≠ "" ∧
            ((m = "Token expired. Please login again." ∧
              jwt_verify token = JwtTokenExpired) ∨
             (m = "Invalid token. Please login again." ∧
              jwt_verify token = JwtWebTokenError) ∨
             (m = "Authentication failed." ∧ jwt_verify token = JwtOtherError)))).
Proof.
  unfold authenticate.
  destruct (truthy authorization) as [h|] eqn:Hh.
  - apply truthy_Some in Hh as [-> Hne].
    destruct (startsWith_Bearer h) eqn:Hb; cbn [negb].
    + apply prefix_app in Hb as [token ->]. rewrite substring_7_Bearer.
      destruct token as [|c token].
      * intros [= <-]. split; [done|]. eexists. split; [done|]. split; [done|].
        right. right. left. done.
      * unfold verifyToken. destruct (jwt_verify _) eqn:Hv; [discriminate|..];
          intros [= <-]; (split; [done|]); eexists; (split; [done|]);
          (split; [done|]); do 3 right; eexists; (split; [done|]); (split; [done|]).
        -- by left.
        -- right. by left.
        -- right. by right.
    + intros [= <-]. split; [done|]. eexists. split; [done|]. split; [done|].
      right. left. split; [done|]. eauto.
  - intros [= <-]. split; [done|]. eexists. split; [done|]. split; [done|].
    left. split; [done|]. by destruct authorization as [[|??]|]; [right|..|left].
Qed.


(** X10. [authenticate] lets a request through exactly when its header is
    [Bearer ] followed by a non-empty token that verifies, and attaches
    the payload of that token. Every other request is answered 401: with
    no header (or an empty one), with a header that does not start with
    [Bearer ], with no token after it, or with the message [verifyToken]
    threw. The fallback message ['Invalid or expired token'] is never
    sent. *)
Theorem authenticate_outcomes jwt_verify (authorization : option string) :
  (∀ p, authenticate jwt_verify authorization = inr p ↔
        ∃ token, authorization = Some ("Bearer " ++ token)%string ∧ token ≠ "" ∧
                 jwt_verify token = JwtPayload p) ∧
  (∀ r, authenticate jwt_verify authorization = inl r →
        status r = 401 ∧
        ∃ m, json r = Failure m ∧ m ≠ "Invalid or expired token" ∧
          ((m = "No authorization token provided" ∧
            (authorization = None ∨ authorization = Some "")) ∨
           (m = "Invalid authorization format. Use: Bearer <token>" ∧
            ∃ h, authorization = Some h ∧ h ≠ "" ∧ startsWith_Bearer h = false) ∨
           (m = "Token is empty" ∧ authorization = Some "Bearer ") ∨
           (∃ token, authorization = Some ("Bearer " ++ token)%string ∧ token ≠ "" ∧
              ((m = "Token expired. Please login again." ∧
                jwt_verify token = JwtTokenExpired) ∨
               (m = "Invalid token. Please login again." ∧
                jwt_verify token = JwtWebTokenError) ∨
               (m = "Authentication failed." ∧ jwt_verify token = JwtOtherError))))).
Proof.
  split; [intros p; apply authenticate_inr|].
  intros r. apply authenticate_inl.
Qed.

(** X11. [optionalAuth] attaches a user to exactly the requests [authenticate]
    lets through, and the same user; the requests [authenticate] answers
    401 go on with no user. *)
Theorem optional_auth_agrees jwt_verify (authorization : option string) :
  (∀ p, optionalAuth jwt_verify authorization = Some p ↔
        authenticate jwt_verify authorization = inr p) ∧
  (optionalAuth jwt_verify authorization = None ↔
   ∃ r, authenticate jwt_verify authorization = inl r).
Proof.
  unfold optionalAuth, authenticate.
  destruct (truthy authorization) as [h|].
  - destruct (negb (startsWith_Bearer h)).
    + split; [done|]. split; eauto.
    + cbn zeta. destruct (substring_7 h) as [|c token].
      * split; [done|]. split; eauto.
      * destruct (verifyToken jwt_verify _) as [m|p].
        -- split; [done|]. split; eauto.
        -- split; [intros p'; split; congruence|].
           split; [done|]. intros [r ?]. done.
  - split; [done|]. split; eauto.
Qed.




(** ** The validators *)

Section Patterns.

Import RegExp.

Lemma lang_seq_iff r1 r2 s :
  lang (Seq r1 r2) s ↔ ∃ s1 s2, s = s1 ++ s2 ∧ lang r1 s1 ∧ lang r2 s2.
Proof.
  split.
  - inversion 1; subst. eauto.
  - intros (s1 & s2 & -> & ? & ?). by constructor.
Qed.

Lemma lang_alt_iff r1 r2 s : lang (Alt r1 r2) s ↔ lang r1 s ∨ lang r2 s.
Proof.
  split.
  - inversion 1; subst; eauto.
  - intros [?|?]; [by apply lang_alt_l|by apply lang_alt_r].
Qed.

Lemma lang_class_iff p s : lang (Class p) s ↔ ∃ c, s = [c] ∧ p c = true.
Proof.
  split.
  - inversion 1; subst. eauto.
  - intros (c & -> & ?). by constructor.
Qed.

Lemma lang_empty_iff s : lang Empty s ↔ s = [].
Proof.
  split.
  - by inversion 1.
  - intros ->. constructor.
Qed.

Lemma lang_never s : ¬ lang Never s.
Proof. inversion 1. Qed.

Lemma nullable_lang r : nullable r = true ↔ lang r [].
Proof.
  induction r as [| |p|r1 IH1 r2 IH2|r1 IH1 r2 IH2|r IH]; simpl.
  - split; [done|]. intros []%lang_never.
  - split; [constructor|done].
  - split; [done|]. by intros (c & ? & _)%lang_class_iff.
  - rewrite andb_true_iff, IH1, IH2, lang_seq_iff. split.
    + intros [? ?]. by exists [], [].
    + intros (s1 & s2 & Hs & ? & ?). symmetry in Hs.
      apply app_eq_nil in Hs as [-> ->]. done.
  - by rewrite orb_true_iff, IH1, IH2, lang_alt_iff.
  - split; [constructor|done].
Qed.

Lemma lang_star_cons_inv r c s :
  lang (Star r) (c :: s) →
  ∃ s1 s2, s = s1 ++ s2 ∧ lang r (c :: s1) ∧ lang (Star r) s2.
Proof.
  intros H. remember (Star r) as r' eqn:Hr. remember (c :: s) as s' eqn:Hs.
  revert s Hs.
  induction H as [| | | | | |r0 s1 s2 H1 _ H2 IH2]; try discriminate.
  injection Hr as ->. intros s Hs.
  destruct s1 as [|c1 s1].
  - apply IH2; done.
  - injection Hs as -> <-. eauto.
Qed.

Lemma derive_lang r c s : lang (derive c r) s ↔ lang r (c :: s).
Proof.
  revert s.
  induction r as [| |p|r1 IH1 r2 IH2|r1 IH1 r2 IH2|r IH]; intros s; simpl.
  - split; intros []%lang_never.
  - split; [intros []%lang_never|]. inversion 1.
  - rewrite lang_class_iff. destruct (p c) eqn:Hp.
    + rewrite lang_empty_iff. split.
      * intros ->. eauto.
      * by intros (c' & [= <- ->] & _).
    + split; [intros []%lang_never|]. intros (c' & [= <- ->] & ?). congruence.
  - rewrite lang_alt_iff, !lang_seq_iff. split.
    + intros [(s1 & s2 & -> & H1 & H2)|H].
      * apply IH1 in H1. by exists (c :: s1), s2.
      * destruct (nullable r1) eqn:Hn; [|by apply lang_never in H].
        apply nullable_lang in Hn. apply IH2 in H. by exists [], (c :: s).
    + intros ([|c1 s1] & s2 & Hs & H1 & H2).
      * right. simpl in Hs. subst s2.
        apply nullable_lang in H1. rewrite H1. by apply IH2.
      * injection Hs as <- ->. left. exists s1, s2. by rewrite IH1.
  - by rewrite !lang_alt_iff, IH1, IH2.
  - rewrite lang_seq_iff. split.
    + intros (s1 & s2 & -> & H1 & H2). apply IH in H1.
      by apply (lang_star_cons r (c :: s1) s2).
    + intros (s1 & s2 & -> & H1 & H2)%lang_star_cons_inv.
      exists s1, s2. by rewrite IH.
Qed.

(** The matcher decides the strings of the pattern. *)
Lemma matches_lang r s : matches r s = true ↔ lang r s.
Proof.
  revert r. induction s as [|c s IH]; intros r; simpl.
  - apply nullable_lang.
  - by rewrite IH, derive_lang.
Qed.

Lemma lang_star_class p s : lang (Star (Class p)) s ↔ all_units p s.
Proof.
  unfold all_units. split.
  - induction s as [|c s IH]; [constructor|].
    intros (s1 & s2 & -> & (c' & [= <- ->] & Hp)%lang_class_iff & H2)%lang_star_cons_inv.
    constructor; [done|]. by apply IH.
  - induction 1 as [|c s Hp _ IH]; [constructor|].
    apply (lang_star_cons _ [c] s); [by constructor|done].
Qed.

Lemma lang_plus_class p s : lang (Plus (Class p)) s ↔ s ≠ [] ∧ all_units p s.
Proof.
  unfold Plus. rewrite lang_seq_iff. split.
  - intros (s1 & s2 & -> & (c & -> & Hp)%lang_class_iff & H2%lang_star_class).
    split; [done|]. by constructor.
  - intros [Hne Hall]. destruct Hall as [|c s Hp Hall]; [done|].
    exists [c], s. rewrite lang_class_iff, lang_star_class. eauto.
Qed.

Lemma lang_anything s : lang anything s.
Proof. apply lang_star_class. unfold all_units. by apply Forall_forall. Qed.

(** An anchored literal tests the whole string. *)
Lemma test_anchored r s : test (mk true r true) s = true ↔ lang r s.
Proof.
  unfold test. rewrite matches_lang. simpl. rewrite lang_seq_iff. split.
  - intros (s1 & s2 & -> & ->%lang_empty_iff
            & (s3 & s4 & -> & ? & ->%lang_empty_iff)%lang_seq_iff).
    by rewrite app_nil_r.
  - intros H. exists [], s. split; [done|]. split; [constructor|].
    apply lang_seq_iff. exists s, []. rewrite app_nil_r. split; [done|].
    split; [done|constructor].
Qed.

(** A class with no anchor tests for some code unit of the class. *)
Lemma test_class p s : test (mk false (Class p) false) s = true ↔ some_unit p s.
Proof.
  unfold test, some_unit. rewrite matches_lang. simpl. rewrite lang_seq_iff. split.
  - intros (s1 & s2 & -> & _
            & (s3 & s4 & -> & (c & -> & Hp)%lang_class_iff & _)%lang_seq_iff).
    apply Exists_app. right. by constructor.
  - intros (c & Hin & Hp)%Exists_exists.
    apply list_elem_of_split in Hin as (s1 & s2 & ->).
    exists s1, (c :: s2). split; [done|]. split; [apply lang_anything|].
    apply lang_seq_iff. exists [c], s2. split; [done|].
    split; [by constructor|apply lang_anything].
Qed.

Lemma test_class_false p s :
  test (mk false (Class p) false) s = false ↔ ¬ some_unit p s.
Proof. rewrite <- test_class. by destruct (test _ s). Qed.

End Patterns.

(** The cases of a validation: the tests are decided, the lists of
    errors are explicit. *)
Ltac validation_cases :=
  simpl in *; rewrite ?elem_of_cons, ?elem_of_nil;
  split_and!;
  try (first [split | unfold not at 1];
       intros; repeat match goal with H : _ ∧ _ |- _ => destruct H end;
       repeat match goal with H : _ ∨ _ |- _ => destruct H end;
       first [done | lia | discriminate | tauto | by left | by (right; left)
             | by (right; right; left)]);
  try (repeat constructor; fail).

(** X13. A password is valid exactly when it has at least 8 code units and
    among them a capital letter, a small letter and a digit (of ASCII);
    the errors name what is missing, the length first, and the result is
    valid exactly when there is no error. *)
Theorem password_validation (password : js_string) :
  (valid (isValidPassword password) = true ↔ errors (isValidPassword password) = []) ∧
  (valid (isValidPassword password) = true ↔
   (8 ≤ length password)%nat ∧ some_unit upper_case password ∧
   some_unit lower_case password ∧ some_unit digit password) ∧
  ("Password must be at least 8 characters long" ∈ errors (isValidPassword password)
   ↔ (length password < 8)%nat) ∧
  ("Password must contain uppercase, lowercase, and number"
     ∈ errors (isValidPassword password)
   ↔ ¬ (some_unit upper_case password ∧ some_unit lower_case password ∧
        some_unit digit password)) ∧
  errors (isValidPassword password)
    `sublist_of` ["Password must be at least 8 characters long";
                  "Password must contain uppercase, lowercase, and number"].
Proof.
  unfold isValidPassword.
  destruct (RegExp.test (RegExp.mk false (RegExp.Class upper_case) false) password)
    eqn:Hu; [apply test_class in Hu|apply test_class_false in Hu];
    (destruct (RegExp.test (RegExp.mk false (RegExp.Class lower_case) false) password)
       eqn:Hl; [apply test_class in Hl|apply test_class_false in Hl]);
    (destruct (RegExp.test (RegExp.mk false (RegExp.Class digit) false) password)
       eqn:Hd; [apply test_class in Hd|apply test_class_false in Hd]);
    destruct (Nat.ltb_spec (length password) 8); validation_cases.
Qed.

Lemma test_plus_class p s :
  RegExp.test (RegExp.mk true (RegExp.Plus (RegExp.Class p)) true) s = true
  ↔ s ≠ [] ∧ all_units p s.
Proof. by rewrite test_anchored, lang_plus_class. Qed.

Lemma test_plus_class_false p c s :
  RegExp.test (RegExp.mk true (RegExp.Plus (RegExp.Class p)) true) (c :: s) = false
  ↔ ¬ all_units p (c :: s).
Proof.
  pose proof (test_plus_class p (c :: s)) as H.
  destruct (RegExp.test _ _); split; try done.
  - intros Hn. destruct H as [[_ H] _]; done.
  - intros _ Hall. destruct H as [_ H]. discriminate H. by split.
Qed.

(** X14. A username is valid exactly when it has between 3 and 50 code units,
    50 included, all of them ASCII letters, digits or underscores. The
    errors come in the order of the checks; too short and too long are
    never reported together; the empty username is reported both too
    short and ill-formed. *)
Theorem username_validation (username : js_string) :
  (valid (isValidUsername username) = true ↔ errors (isValidUsername username) = []) ∧
  (valid (isValidUsername username) = true ↔
   (3 ≤ length username ≤ 50)%nat ∧ all_units word_unit username) ∧
  ("Username must be at least 3 characters long" ∈ errors (isValidUsername username)
   ↔ (length username < 3)%nat) ∧
  ("Username must be less than 50 characters" ∈ errors (isValidUsername username)
   ↔ (50 < length username)%nat) ∧
  ("Username can only contain letters, numbers, and underscores"
     ∈ errors (isValidUsername username)
   ↔ username = [] ∨ ¬ all_units word_unit username) ∧
  errors (isValidUsername username)
    `sublist_of` ["Username must be at least 3 characters long";
                  "Username must be less than 50 characters";
                  "Username can only contain letters, numbers, and underscores"] ∧
  ¬ ("Username must be at least 3 characters long" ∈ errors (isValidUsername username) ∧
     "Username must be less than 50 characters" ∈ errors (isValidUsername username)).
Proof.
  destruct username as [|c s].
  { assert (all_units word_unit []) by constructor.
    change (isValidUsername [])
      with (mkValidation false
              ["Username must be at least 3 characters long";
               "Username can only contain letters, numbers, and underscores"]).
    validation_cases. }
  unfold isValidUsername.
  destruct (RegExp.test _ (c :: s)) eqn:Ht;
    [apply test_plus_class in Ht as [_ Ht]|apply test_plus_class_false in Ht];
    destruct (Nat.ltb_spec (length (c :: s)) 3);
    destruct (Nat.ltb_spec 50 (length (c :: s))); try lia;
    validation_cases.
Qed.

Lemma unit_true u c : RegExp.unit u c = true ↔ c = u.
Proof. unfold RegExp.unit. apply N.eqb_eq. Qed.

Lemma not_space_or_at_spec c :
  not_space_or_at c = true ↔ RegExp.white_space c = false ∧ c ≠ 64%N.
Proof.
  unfold not_space_or_at. rewrite negb_true_iff, orb_false_iff.
  unfold RegExp.unit. by rewrite N.eqb_neq.
Qed.

(** What the pattern of [isValidEmail] accepts. *)
Lemma isValidEmail_parts (email : js_string) :
  isValidEmail email = true ↔
  ∃ l d t, email = l ++ 64%N :: d ++ 46%N :: t ∧
           l ≠ [] ∧ d ≠ [] ∧ t ≠ [] ∧
           all_units not_space_or_at l ∧ all_units not_space_or_at d ∧
           all_units not_space_or_at t.
Proof.
  unfold isValidEmail, emailRegex. rewrite test_anchored. split.
  - intros (l & s1 & -> & [? ?]%lang_plus_class
            & (a & s2 & -> & (? & -> & ->%unit_true)%lang_class_iff
            & (d & s3 & -> & [? ?]%lang_plus_class
            & (o & t & -> & (? & -> & ->%unit_true)%lang_class_iff
            & [? ?]%lang_plus_class)%lang_seq_iff)%lang_seq_iff)%lang_seq_iff)%lang_seq_iff.
    exists l, d, t. done.
  - intros (l & d & t & -> & ? & ? & ? & ? & ? & ?).
    apply lang_seq; [by apply lang_plus_class|].
    apply (lang_seq _ _ [64%N]); [by apply lang_class|].
    apply lang_seq; [by apply lang_plus_class|].
    apply (lang_seq _ _ [46%N]); [by apply lang_class|].
    by apply lang_plus_class.
Qed.

Lemma all_units_no_at (s : js_string) :
  all_units not_space_or_at s →
  filter (fun c => c = 64%N) s = [] ∧ all_units (negb ∘ RegExp.white_space) s.
Proof.
  unfold all_units. induction 1 as [|c s [Hw Hc]%not_space_or_at_spec _ [IH1 IH2]];
    [by split; [|constructor]|].
  split.
  - rewrite filter_cons_False by done. exact IH1.
  - constructor; [|done]. simpl. by rewrite Hw.
Qed.

(** X15. An email address is valid exactly when it reads [l@d.t] with [l], [d]
    and [t] non-empty and free of white space and of [@] ([d] and [t] may
    hold further dots). A valid address has exactly one [@], no white
    space, and at least 5 code units. *)
Theorem email_validation (email : js_string) :
  (isValidEmail email = true ↔
   ∃ l d t, email = l ++ 64%N :: d ++ 46%N :: t ∧
            l ≠ [] ∧ d ≠ [] ∧ t ≠ [] ∧
            all_units not_space_or_at l ∧ all_units not_space_or_at d ∧
            all_units not_space_or_at t) ∧
  (isValidEmail email = true →
   length (filter (fun c => c = 64%N) email) = 1%nat ∧
   all_units (negb ∘ RegExp.white_space) email ∧
   (5 ≤ length email)%nat).
Proof.
  split; [apply isValidEmail_parts|].
  intros (l & d & t & -> & Hl & Hd & Ht
          & [Hl1 Hl2]%all_units_no_at & [Hd1 Hd2]%all_units_no_at
          & [Ht1 Ht2]%all_units_no_at)%isValidEmail_parts.
  split_and!.
  - rewrite filter_app, filter_cons_True by done.
    rewrite filter_app, filter_cons_False by done.
    rewrite Hl1, Hd1, Ht1. done.
  - unfold all_units in *. apply Forall_app. split; [done|].
    constructor; [done|]. apply Forall_app. split; [done|]. by constructor.
  - destruct l, d, t; try done. rewrite length_app. simpl. rewrite length_app. simpl. lia.
Qed.

(** [a@b.c], [a@b..c] and [a.b@c.d.e] are valid; [a@b], [a@@b.c],
    [a b@c.d], [@b.c] and [a@b.] are not. *)
Lemma sample_emails :
  isValidEmail [97; 64; 98; 46; 99]%N = true ∧
  isValidEmail [97; 64; 98; 46; 46; 99]%N = true ∧
  isValidEmail [97; 46; 98; 64; 99; 46; 100; 46; 101]%N = true ∧
  isValidEmail [97; 64; 98]%N = false ∧
  isValidEmail [97; 64; 64; 98; 46; 99]%N = false ∧
  isValidEmail [97; 32; 98; 64; 99; 46; 100]%N = false ∧
  isValidEmail [64; 98; 46; 99]%N = false ∧
  isValidEmail [97; 64; 98; 46]%N = false.
Proof. vm_compute. done. Qed.

(** ** A question by its identity *)




